(** * ChatappAI: conversation store, provider adapter and message routes

    A shallow embedding of [server/storage.ts] (the in-memory store),
    [server/services/ai-providers.ts] (the provider adapter) and
    [server/routes.ts] (the REST handlers), with the properties the
    specification states about them.

    Conventions.
    - A JavaScript string is the list of its UTF-16 code units, so that
      [substring] and [length] count what the engine counts.
    - A JavaScript [Map] is an association list in insertion order: [set] on
      a present key replaces the value in place, [set] on an absent key
      appends, and [values()] lists the values in that order.
    - [randomUUID()] and [new Date()] are inputs of the operation that calls
      them: the identifier and the clock reading (milliseconds since the
      epoch) are passed as arguments.
    - A call to a provider SDK is an [Await] node of the [IO] tree; the
      upstream service is whatever function answers those nodes. *)

From Stdlib Require Import List ZArith NArith String Ascii Bool Lia.
From Stdlib Require Import Permutation Sorted.
Import ListNotations.

Local Open Scope Z_scope.

(* ================================================================= *)
(** ** JavaScript strings *)

Definition jsstring := list N.

Definition str_eq_dec : forall a b : jsstring, {a = b} + {a <> b} :=
  list_eq_dec N.eq_dec.

(** [a === b] on strings. *)
Definition streq (a b : jsstring) : bool :=
  if str_eq_dec a b then true else false.

(** An ASCII literal of the source as a string of code units. *)
Definition lit (s : string) : jsstring :=
  map N_of_ascii (list_ascii_of_string s).

(** [s.substring(a, b)]: both indices are clamped to the length and swapped
    when out of order. *)
Definition substring (s : jsstring) (a b : nat) : jsstring :=
  let a' := Nat.min a (List.length s) in
  let b' := Nat.min b (List.length s) in
  let lo := Nat.min a' b' in
  let hi := Nat.max a' b' in
  firstn (hi - lo) (skipn lo s).

(** [parts.join(sep)]. *)
Fixpoint join (sep : jsstring) (parts : list jsstring) : jsstring :=
  match parts with
  | [] => []
  | [p] => p
  | p :: rest => p ++ sep ++ join sep rest
  end.

(** A string is truthy when it is not empty. *)
Definition truthy (s : jsstring) : bool :=
  match s with [] => false | _ :: _ => true end.

(** [a || b] where [a] is a string that may be [undefined]. *)
Definition or_else (a : option jsstring) (b : jsstring) : jsstring :=
  match a with
  | Some s => if truthy s then s else b
  | None => b
  end.

(* ================================================================= *)
(** ** JavaScript [Map] with string keys *)

Section JSMap.
Context {V : Type}.

Definition JSMap := list (jsstring * V).

Fixpoint map_get (k : jsstring) (m : JSMap) : option V :=
  match m with
  | [] => None
  | (k', v) :: m' => if str_eq_dec k k' then Some v else map_get k m'
  end.

Fixpoint map_set (k : jsstring) (v : V) (m : JSMap) : JSMap :=
  match m with
  | [] => [(k, v)]
  | (k', v') :: m' =>
      if str_eq_dec k k' then (k, v) :: m' else (k', v') :: map_set k v m'
  end.

(** [m.delete(k)]: the map without the entry. *)
Fixpoint map_remove (k : jsstring) (m : JSMap) : JSMap :=
  match m with
  | [] => []
  | (k', v) :: m' =>
      if str_eq_dec k k' then m' else (k', v) :: map_remove k m'
  end.

Definition map_has (k : jsstring) (m : JSMap) : bool :=
  match map_get k m with Some _ => true | None => false end.

(** [m.delete(k)] returns whether the entry existed. *)
Definition map_delete (k : jsstring) (m : JSMap) : JSMap * bool :=
  (map_remove k m, map_has k m).

(** [Array.from(m.values())]. *)
Definition map_values (m : JSMap) : list V := map snd m.

Definition map_keys (m : JSMap) : list jsstring := map fst m.
End JSMap.

Arguments JSMap : clear implicits.

(** [arr.sort(cmp)]: the sort of ECMAScript is stable, and for a comparator
    that is a total preorder the result of a stable sort is unique; it is
    computed here by insertion. [cmp a b <= 0] keeps [a] before [b]. *)
Section Sort.
Context {A : Type} (cmp : A -> A -> Z).

Fixpoint sort_insert (x : A) (l : list A) : list A :=
  match l with
  | [] => [x]
  | y :: l' => if cmp x y <=? 0 then x :: y :: l' else y :: sort_insert x l'
  end.

Fixpoint js_sort (l : list A) : list A :=
  match l with
  | [] => []
  | x :: l' => sort_insert x (js_sort l')
  end.
End Sort.

(** [arr.find(p)]. *)
Definition js_find {A : Type} (p : A -> bool) (l : list A) : option A :=
  List.find p l.

(* ================================================================= *)
(** ** Entities ([shared/schema.ts]) *)

Inductive Role := user | assistant.

Record Usage := mkUsage {
  promptTokens : Z;
  completionTokens : Z;
  totalTokens : Z
}.

(** The two shapes of [metadata] the routes store. *)
Inductive Metadata :=
| MetaImages (images : list jsstring)
| MetaUsage (usage : option Usage).

Module User.
Record t := mk { id : jsstring; username : jsstring; password : jsstring }.
End User.

Module Conversation.
Record t := mk {
    id : jsstring;
    title : jsstring;
    userId : option jsstring;
    provider : jsstring;
    model : jsstring;
    createdAt : Z;
    updatedAt : Z
  }.
End Conversation.

Module Message.
Record t := mk {
    id : jsstring;
    conversationId : jsstring;
    role : Role;
    content : jsstring;
    metadata : option Metadata;
    createdAt : Z
  }.
End Message.

Module ApiKey.
Record t := mk {
    id : jsstring;
    userId : jsstring;
    provider : jsstring;
    keyValue : jsstring;
    isActive : bool;
    createdAt : Z
  }.

  (** [key.isActive = false]. *)
Definition deactivate (key : t) : t :=
    mk (id key) (userId key) (provider key) (keyValue key) false (createdAt key).

  (** [{ ...key, keyValue: v }]. *)
Definition with_keyValue (v : jsstring) (key : t) : t :=
    mk (id key) (userId key) (provider key) v (isActive key) (createdAt key).
End ApiKey.

Module InsertUser.
Record t := mk { username : jsstring; password : jsstring }.
End InsertUser.

Module InsertConversation.
Record t := mk {
    title : jsstring;
    userId : option jsstring;
    provider : jsstring;
    model : jsstring
  }.
End InsertConversation.

Module InsertMessage.
Record t := mk {
    conversationId : jsstring;
    role : Role;
    content : jsstring;
    metadata : option Metadata
  }.
End InsertMessage.

Module InsertApiKey.
Record t := mk {
    userId : jsstring;
    provider : jsstring;
    keyValue : jsstring;
    isActive : option bool
  }.
End InsertApiKey.

(** [Partial<Conversation>]. *)
Module PartialConversation.
Record t := mk {
    id : option jsstring;
    title : option jsstring;
    userId : option (option jsstring);
    provider : option jsstring;
    model : option jsstring;
    createdAt : option Z;
    updatedAt : option Z
  }.
End PartialConversation.

(** The supported providers: [AIProvider = z.enum([...])]. *)
Inductive AIProviderType :=
| openai | anthropic | google | huggingface | cerebras | sambanova
| mistral | cohere | xai | perplexity | together | fireworks.

Definition AIProvider_options : list AIProviderType :=
  [openai; anthropic; google; huggingface; cerebras; sambanova;
   mistral; cohere; xai; perplexity; together; fireworks].

Definition provider_name (p : AIProviderType) : jsstring :=
  match p with
  | openai => lit "openai"
  | anthropic => lit "anthropic"
  | google => lit "google"
  | huggingface => lit "huggingface"
  | cerebras => lit "cerebras"
  | sambanova => lit "sambanova"
  | mistral => lit "mistral"
  | cohere => lit "cohere"
  | xai => lit "xai"
  | perplexity => lit "perplexity"
  | together => lit "together"
  | fireworks => lit "fireworks"
  end.

(** [AIProvider.parse(s)], [None] when it throws. *)
Definition AIProvider_parse (s : jsstring) : option AIProviderType :=
  List.find (fun p => streq s (provider_name p)) AIProvider_options.

(* ================================================================= *)
(** ** [MemStorage] ([server/storage.ts]) *)

Record MemStorage := mkStore {
  users : JSMap User.t;
  conversations : JSMap Conversation.t;
  messages : JSMap Message.t;
  apiKeys : JSMap ApiKey.t
}.

Definition empty_storage : MemStorage := mkStore [] [] [] [].

Definition set_users (v : JSMap User.t) (s : MemStorage) :=
  mkStore v (conversations s) (messages s) (apiKeys s).
Definition set_conversations (v : JSMap Conversation.t) (s : MemStorage) :=
  mkStore (users s) v (messages s) (apiKeys s).
Definition set_messages (v : JSMap Message.t) (s : MemStorage) :=
  mkStore (users s) (conversations s) v (apiKeys s).
Definition set_apiKeys (v : JSMap ApiKey.t) (s : MemStorage) :=
  mkStore (users s) (conversations s) (messages s) v.

Definition opt_streq (a : option jsstring) (b : jsstring) : bool :=
  match a with Some a' => streq a' b | None => false end.

(* ---- users ---- *)

Definition getUser (id : jsstring) (s : MemStorage) : option User.t :=
  map_get id (users s).

Definition getUserByUsername (username : jsstring) (s : MemStorage)
  : option User.t :=
  js_find (fun u => streq (User.username u) username) (map_values (users s)).

Definition createUser (id : jsstring) (insertUser : InsertUser.t)
    (s : MemStorage) : MemStorage * User.t :=
  let user := User.mk id (InsertUser.username insertUser)
                      (InsertUser.password insertUser) in
  (set_users (map_set id user (users s)) s, user).

(* ---- conversations ---- *)

Definition getConversationsByUserId (userId : jsstring) (s : MemStorage)
  : list Conversation.t :=
  js_sort (fun a b => Conversation.updatedAt b - Conversation.updatedAt a)
    (filter (fun conv => opt_streq (Conversation.userId conv) userId)
       (map_values (conversations s))).

Definition getConversation (id : jsstring) (s : MemStorage)
  : option Conversation.t :=
  map_get id (conversations s).

Definition createConversation (id : jsstring) (now : Z)
    (conversation : InsertConversation.t) (s : MemStorage)
  : MemStorage * Conversation.t :=
  let newConv :=
    Conversation.mk id
      (InsertConversation.title conversation)
      (match InsertConversation.userId conversation with
       | Some u => if truthy u then Some u else None
       | None => None
       end)
      (InsertConversation.provider conversation)
      (InsertConversation.model conversation)
      now now in
  (set_conversations (map_set id newConv (conversations s)) s, newConv).

Definition merge {A : Type} (old : A) (upd : option A) : A :=
  match upd with Some v => v | None => old end.

Definition updateConversation (id : jsstring)
    (updates : PartialConversation.t) (now : Z) (s : MemStorage)
  : MemStorage * option Conversation.t :=
  match map_get id (conversations s) with
  | None => (s, None)
  | Some existing =>
      let updated :=
        Conversation.mk
          (merge (Conversation.id existing) (PartialConversation.id updates))
          (merge (Conversation.title existing) (PartialConversation.title updates))
          (merge (Conversation.userId existing) (PartialConversation.userId updates))
          (merge (Conversation.provider existing) (PartialConversation.provider updates))
          (merge (Conversation.model existing) (PartialConversation.model updates))
          (merge (Conversation.createdAt existing) (PartialConversation.createdAt updates))
          now in
      (set_conversations (map_set id updated (conversations s)) s, Some updated)
  end.

(* ---- messages ---- *)

Definition getMessagesByConversationId (conversationId : jsstring)
    (s : MemStorage) : list Message.t :=
  js_sort (fun a b => Message.createdAt a - Message.createdAt b)
    (filter (fun msg => streq (Message.conversationId msg) conversationId)
       (map_values (messages s))).

Definition createMessage (id : jsstring) (now : Z) (message : InsertMessage.t)
    (s : MemStorage) : MemStorage * Message.t :=
  let newMessage :=
    Message.mk id
      (InsertMessage.conversationId message)
      (InsertMessage.role message)
      (InsertMessage.content message)
      (InsertMessage.metadata message)
      now in
  (set_messages (map_set id newMessage (messages s)) s, newMessage).

Definition deleteMessagesByConversationId (conversationId : jsstring)
    (s : MemStorage) : MemStorage * bool :=
  let messagesToDelete :=
    filter (fun msg => streq (Message.conversationId msg) conversationId)
      (map_values (messages s)) in
  (set_messages
     (fold_left (fun m msg => map_remove (Message.id msg) m)
        messagesToDelete (messages s)) s,
   true).

Definition deleteConversation (id : jsstring) (s : MemStorage)
  : MemStorage * bool :=
  let (s1, _) := deleteMessagesByConversationId id s in
  let (convs, existed) := map_delete id (conversations s1) in
  (set_conversations convs s1, existed).

(* ---- API keys ---- *)

Definition getApiKeysByUserId (userId : jsstring) (s : MemStorage)
  : list ApiKey.t :=
  filter (fun key => streq (ApiKey.userId key) userId)
    (map_values (apiKeys s)).

Definition getApiKey (userId provider : jsstring) (s : MemStorage)
  : option ApiKey.t :=
  js_find (fun key => streq (ApiKey.userId key) userId
                      && streq (ApiKey.provider key) provider
                      && ApiKey.isActive key)
    (map_values (apiKeys s)).

(** The filter of [setApiKey]: same user and same provider. *)
Definition same_pair (userId provider : jsstring) (key : ApiKey.t) : bool :=
  streq (ApiKey.userId key) userId && streq (ApiKey.provider key) provider.

(** The [forEach] of [setApiKey]. Its body assigns [key.isActive = false]
    on the stored object, which every entry holding that object sees, and
    then calls [this.apiKeys.set(key.id, key)]. *)
Definition deactivate_all (userId provider : jsstring)
    (m : JSMap ApiKey.t) : JSMap ApiKey.t :=
  let existing := filter (same_pair userId provider) (map_values m) in
  let mutated :=
    map (fun e : jsstring * ApiKey.t =>
           if same_pair userId provider (snd e)
           then (fst e, ApiKey.deactivate (snd e)) else e) m in
  fold_left (fun m' key => map_set (ApiKey.id key) (ApiKey.deactivate key) m')
    existing mutated.

Definition setApiKey (id : jsstring) (now : Z) (apiKey : InsertApiKey.t)
    (s : MemStorage) : MemStorage * ApiKey.t :=
  let keys1 :=
    deactivate_all (InsertApiKey.userId apiKey) (InsertApiKey.provider apiKey)
      (apiKeys s) in
  let newKey :=
    ApiKey.mk id (InsertApiKey.userId apiKey) (InsertApiKey.provider apiKey)
      (InsertApiKey.keyValue apiKey) true now in
  (set_apiKeys (map_set id newKey keys1) s, newKey).

Definition deleteApiKey (userId provider : jsstring) (s : MemStorage)
  : MemStorage * bool :=
  match getApiKey userId provider s with
  | Some key =>
      let (keys, existed) := map_delete (ApiKey.id key) (apiKeys s) in
      (set_apiKeys keys s, existed)
  | None => (s, false)
  end.

(* ================================================================= *)
(** ** Outbound calls and promises *)

(** What a rejected promise or a [throw] carries. *)
Inductive Error :=
| JsError (message : jsstring)        (* [new Error(message)] *)
| TypeError                           (* a property read on [undefined] *)
| ZodError                            (* [schema.parse] refused the value *)
| UpstreamError (message : jsstring). (* the SDK call rejected *)

Inductive Result (A : Type) : Type :=
| Ok (a : A)
| Err (e : Error).

Arguments Ok {A} a.
Arguments Err {A} e.

(** One history turn handed to the adapter:
    [{ role, content, images? }]. *)
Module ChatTurn.
Record t := mk {
  role : Role;
  content : jsstring;
  images : option (list jsstring)
}.
End ChatTurn.

(** [msg.images && msg.images.length > 0]. *)
Definition has_images (msg : ChatTurn.t) : bool :=
  match ChatTurn.images msg with
  | Some (_ :: _) => true
  | _ => false
  end.

Definition images_of (msg : ChatTurn.t) : list jsstring :=
  match ChatTurn.images msg with Some l => l | None => [] end.

(** The [openai] SDK, as far as the adapter uses it. *)
Module OpenAI.
Record Client := mkClient { apiKey : jsstring; baseURL : option jsstring }.
Inductive Part :=
| text_part (text : jsstring)            (* [{ type: "text", text }] *)
| image_url_part (url : jsstring).       (* [{ type: "image_url", image_url: { url } }] *)
Inductive Content :=
| plain (s : jsstring)
| parts (l : list Part).
Record Message := mkMessage { role : Role; content : Content }.
Record Params := mkParams {
  model : jsstring;
  messages : list Message;
  max_tokens : Z
}.
Record UsageInfo := mkUsageInfo {
  prompt_tokens : Z;
  completion_tokens : Z;
  total_tokens : Z
}.
(** [choices[i].message.content] is a string or [null]. *)
Record Choice := mkChoice { message_content : option jsstring }.
Record ChatCompletion := mkChatCompletion {
  choices : list Choice;
  usage : option UsageInfo
}.
End OpenAI.

(** The [@anthropic-ai/sdk] SDK. *)
Module AnthropicSDK.
Inductive Block :=
| text_block (text : jsstring)
| image_block (media_type data : jsstring).  (* [source: { type: "base64", ... }] *)
Inductive Content :=
| plain (s : jsstring)
| blocks (l : list Block).
Record Message := mkMessage { role : Role; content : Content }.
Record Params := mkParams {
  model : jsstring;
  max_tokens : Z;
  messages : list Message
}.
Inductive ReplyBlock :=
| reply_text (text : jsstring)
| reply_other.
Record UsageInfo := mkUsageInfo { input_tokens : Z; output_tokens : Z }.
Record Reply := mkReply {
  content_blocks : list ReplyBlock;
  usage : option UsageInfo
}.
End AnthropicSDK.

(** The [@google/genai] SDK. *)
Module GenAI.
Inductive Part :=
| text_part (text : jsstring)
| inline_data (data mimeType : jsstring).
Record Content := mkContent { role : jsstring; parts : list Part }.
Record Params := mkParams { model : jsstring; contents : list Content }.
Record Reply := mkReply { text : option jsstring }.
End GenAI.

(** The [@huggingface/inference] SDK. [temperature] is the decimal
    [temperature_num / temperature_den]. *)
Module Hf.
Record Parameters := mkParameters {
  max_new_tokens : Z;
  temperature_num : Z;
  temperature_den : Z
}.
Record Params := mkParams {
  model : jsstring;
  inputs : jsstring;
  parameters : Parameters
}.
Record Reply := mkReply { generated_text : jsstring }.
End Hf.

(** The [@mistralai/mistralai] SDK. *)
Module MistralSDK.
Record Message := mkMessage { role : Role; content : jsstring }.
Record Params := mkParams { model : jsstring; messages : list Message }.
Record UsageInfo := mkUsageInfo {
  prompt_tokens : Z;
  completion_tokens : Z;
  total_tokens : Z
}.
(** [choices?.[i]?.message?.content]. *)
Record Reply := mkReply {
  choices : option (list (option jsstring));
  usage : option UsageInfo
}.
End MistralSDK.

(** The [cohere-ai] SDK. *)
Module CohereSDK.
Inductive ChatRole := USER | CHATBOT.
Record Turn := mkTurn { role : ChatRole; message : jsstring }.
Record Params := mkParams {
  model : jsstring;
  message_text : jsstring;
  chatHistory : option (list Turn)
}.
Record Reply := mkReply { text : option jsstring }.
End CohereSDK.

(** A request that leaves the process. *)
Inductive Outbound :=
| OpenAI_chat_completions_create (client : OpenAI.Client) (params : OpenAI.Params)
| Anthropic_messages_create (apiKey : jsstring) (params : AnthropicSDK.Params)
| Google_models_generateContent (apiKey : jsstring) (params : GenAI.Params)
| Hf_textGeneration (accessToken : jsstring) (params : Hf.Params)
| Mistral_chat_complete (apiKey : jsstring) (params : MistralSDK.Params)
| Cohere_chat (token : jsstring) (params : CohereSDK.Params).

Definition reply_type (c : Outbound) : Type :=
  match c with
  | OpenAI_chat_completions_create _ _ => OpenAI.ChatCompletion
  | Anthropic_messages_create _ _ => AnthropicSDK.Reply
  | Google_models_generateContent _ _ => GenAI.Reply
  | Hf_textGeneration _ _ => Hf.Reply
  | Mistral_chat_complete _ _ => MistralSDK.Reply
  | Cohere_chat _ _ => CohereSDK.Reply
  end.

(** A computation that may wait for outbound calls. The continuation of a
    call receives the reply, or the error the call rejected with. *)
Inductive IO (A : Type) : Type :=
| Ret (a : A)
| Await (c : Outbound) (k : Result (reply_type c) -> IO A).

Arguments Ret {A} a.
Arguments Await {A} c k.

Fixpoint io_bind {A B : Type} (m : IO A) (f : A -> IO B) : IO B :=
  match m with
  | Ret a => f a
  | Await c k => Await c (fun r => io_bind (k r) f)
  end.

(** The upstream services: an answer to every outbound call. *)
Definition Upstream := forall c : Outbound, Result (reply_type c).

Fixpoint run {A : Type} (up : Upstream) (m : IO A) : A :=
  match m with
  | Ret a => a
  | Await c k => run up (k (up c))
  end.

(** The outbound calls of a computation under [up], in order. *)
Fixpoint calls {A : Type} (up : Upstream) (m : IO A) : list Outbound :=
  match m with
  | Ret _ => []
  | Await c k => c :: calls up (k (up c))
  end.

(** The promise of an [async] function: it resolves or rejects. *)
Definition Async (A : Type) : Type := IO (Result A).

Definition resolve {A : Type} (a : A) : Async A := Ret (Ok a).
Definition throw {A : Type} (e : Error) : Async A := Ret (Err e).
Definition await (c : Outbound) : Async (reply_type c) := Await c Ret.

Definition async_bind {A B : Type} (m : Async A) (f : A -> Async B) : Async B :=
  io_bind m (fun r => match r with Ok a => f a | Err e => throw e end).

Declare Scope async_scope.
Delimit Scope async_scope with async.
Notation "x <- m ;; k" := (async_bind m (fun x => k))
  (at level 61, m at next level, right associativity) : async_scope.

(* ================================================================= *)
(** ** More string operations used by the adapter *)

Definition newline : jsstring := [10%N].

(** White space and line terminators of ECMAScript, which [trim] strips. *)
Definition is_js_space (c : N) : bool :=
  existsb (N.eqb c)
    [9; 10; 11; 12; 13; 32; 160; 5760; 8232; 8233; 8239; 8287; 12288; 65279]%N
  || (N.leb 8192 c && N.leb c 8202).

Fixpoint trim_start (s : jsstring) : jsstring :=
  match s with
  | [] => []
  | c :: s' => if is_js_space c then trim_start s' else s
  end.

Definition trim (s : jsstring) : jsstring :=
  rev (trim_start (rev (trim_start s))).

Fixpoint starts_with (p s : jsstring) : bool :=
  match p, s with
  | [], _ => true
  | _ :: _, [] => false
  | a :: p', b :: s' => N.eqb a b && starts_with p' s'
  end.

(** [s.replace(p, '')] for a string pattern: the first occurrence goes. *)
Fixpoint remove_first (p s : jsstring) : jsstring :=
  if starts_with p s then skipn (List.length p) s
  else match s with
       | [] => []
       | c :: s' => c :: remove_first p s'
       end.

(* ================================================================= *)
(** ** The provider adapter ([server/services/ai-providers.ts]) *)

Definition DEFAULT_MODELS (p : AIProviderType) : jsstring :=
  match p with
  | openai => lit "gpt-4o"
  | anthropic => lit "claude-sonnet-4-20250514"
  | google => lit "gemini-2.5-flash"
  | huggingface => lit "meta-llama/Llama-3.2-11B-Vision-Instruct"
  | cerebras => lit "llama3.1-8b"
  | sambanova => lit "Meta-Llama-3.1-8B-Instruct"
  | mistral => lit "mistral-large-latest"
  | cohere => lit "command-r-plus"
  | xai => lit "grok-beta"
  | perplexity => lit "llama-3.1-sonar-large-128k-online"
  | together => lit "meta-llama/Meta-Llama-3.1-8B-Instruct-Turbo"
  | fireworks => lit "accounts/fireworks/models/llama-v3p1-8b-instruct"
  end.

Module AIResponse.
Record t := mk {
  content : jsstring;
  model : jsstring;
  provider : jsstring;
  usage : option Usage
}.
End AIResponse.

Local Open Scope async_scope.

(** [arr[0]] followed by a property read: a [TypeError] on an empty array. *)
Definition first_or_TypeError {A : Type} (l : list A) : Async A :=
  match l with
  | x :: _ => resolve x
  | [] => throw TypeError
  end.

Definition openai_usage (u : option OpenAI.UsageInfo) : option Usage :=
  match u with
  | Some u' => Some (mkUsage (OpenAI.prompt_tokens u')
                             (OpenAI.completion_tokens u')
                             (OpenAI.total_tokens u'))
  | None => None
  end.

Definition sendOpenAIMessage (apiKey : jsstring) (messages : list ChatTurn.t)
    (model : jsstring) : Async AIResponse.t :=
  let openai := OpenAI.mkClient apiKey None in
  let openaiMessages :=
    map (fun msg =>
           if has_images msg then
             OpenAI.mkMessage (ChatTurn.role msg)
               (OpenAI.parts
                  (OpenAI.text_part (ChatTurn.content msg)
                   :: map (fun img =>
                             OpenAI.image_url_part
                               (lit "data:image/jpeg;base64," ++ img))
                        (images_of msg)))
           else
             OpenAI.mkMessage (ChatTurn.role msg)
               (OpenAI.plain (ChatTurn.content msg)))
      messages in
  response <- await (OpenAI_chat_completions_create openai
                       (OpenAI.mkParams model openaiMessages 4000)) ;;
  choice <- first_or_TypeError (OpenAI.choices response) ;;
  resolve (AIResponse.mk
             (or_else (OpenAI.message_content choice) [])
             model
             (lit "openai")
             (openai_usage (OpenAI.usage response))).

Definition sendAnthropicMessage (apiKey : jsstring) (messages : list ChatTurn.t)
    (model : jsstring) : Async AIResponse.t :=
  let anthropicMessages :=
    map (fun msg =>
           if has_images msg then
             AnthropicSDK.mkMessage (ChatTurn.role msg)
               (AnthropicSDK.blocks
                  (AnthropicSDK.text_block (ChatTurn.content msg)
                   :: map (fun img =>
                             AnthropicSDK.image_block (lit "image/jpeg") img)
                        (images_of msg)))
           else
             AnthropicSDK.mkMessage (ChatTurn.role msg)
               (AnthropicSDK.plain (ChatTurn.content msg)))
      messages in
  response <- await (Anthropic_messages_create apiKey
                       (AnthropicSDK.mkParams model 4000 anthropicMessages)) ;;
  resolve (AIResponse.mk
             (List.concat (map (fun c => match c with
                                    | AnthropicSDK.reply_text t => t
                                    | AnthropicSDK.reply_other => []
                                    end)
                        (AnthropicSDK.content_blocks response)))
             model
             (lit "anthropic")
             (match AnthropicSDK.usage response with
              | Some u =>
                  Some (mkUsage (AnthropicSDK.input_tokens u)
                                (AnthropicSDK.output_tokens u)
                                (AnthropicSDK.input_tokens u
                                 + AnthropicSDK.output_tokens u))
              | None => None
              end)).

Definition sendGoogleMessage (apiKey : jsstring) (messages : list ChatTurn.t)
    (model : jsstring) : Async AIResponse.t :=
  let contents :=
    map (fun msg =>
           let parts :=
             GenAI.text_part (ChatTurn.content msg)
             :: (if has_images msg
                 then map (fun img => GenAI.inline_data img (lit "image/jpeg"))
                        (images_of msg)
                 else []) in
           GenAI.mkContent
             (match ChatTurn.role msg with
              | assistant => lit "model"
              | user => lit "user"
              end)
             parts)
      messages in
  response <- await (Google_models_generateContent apiKey
                       (GenAI.mkParams model contents)) ;;
  resolve (AIResponse.mk (or_else (GenAI.text response) []) model
             (lit "google") None).

Definition sendHuggingFaceMessage (apiKey : jsstring)
    (messages : list ChatTurn.t) (model : jsstring) : Async AIResponse.t :=
  let conversationText :=
    join newline
      (map (fun msg =>
              match ChatTurn.role msg with
              | user => lit "Human: " ++ ChatTurn.content msg
              | assistant => lit "Assistant: " ++ ChatTurn.content msg
              end)
         messages)
    ++ newline ++ lit "Assistant:" in
  response <- await (Hf_textGeneration apiKey
                       (Hf.mkParams model conversationText
                          (Hf.mkParameters 1000 7 10))) ;;
  resolve (AIResponse.mk
             (trim (remove_first conversationText (Hf.generated_text response)))
             model (lit "huggingface") None).

(** The body shared, word for word, by [sendCerebrasMessage],
    [sendSambanovaMessage], [sendXAIMessage], [sendPerplexityMessage],
    [sendTogetherMessage] and [sendFireworksMessage]: they differ in the
    [baseURL] of the client and in the [provider] of the reply. *)
Definition sendOpenAICompatible (baseURL providerName : jsstring)
    (apiKey : jsstring) (messages : list ChatTurn.t) (model : jsstring)
  : Async AIResponse.t :=
  let openai := OpenAI.mkClient apiKey (Some baseURL) in
  let openaiMessages :=
    map (fun msg => OpenAI.mkMessage (ChatTurn.role msg)
                      (OpenAI.plain (ChatTurn.content msg)))
      messages in
  response <- await (OpenAI_chat_completions_create openai
                       (OpenAI.mkParams model openaiMessages 1000)) ;;
  choice <- first_or_TypeError (OpenAI.choices response) ;;
  resolve (AIResponse.mk
             (or_else (OpenAI.message_content choice) [])
             model
             providerName
             (openai_usage (OpenAI.usage response))).

Definition sendCerebrasMessage :=
  sendOpenAICompatible (lit "https://api.cerebras.ai/v1") (lit "cerebras").
Definition sendSambanovaMessage :=
  sendOpenAICompatible (lit "https://api.sambanova.ai/v1") (lit "sambanova").
Definition sendXAIMessage :=
  sendOpenAICompatible (lit "https://api.x.ai/v1") (lit "xai").
Definition sendPerplexityMessage :=
  sendOpenAICompatible (lit "https://api.perplexity.ai") (lit "perplexity").
Definition sendTogetherMessage :=
  sendOpenAICompatible (lit "https://api.together.xyz/v1") (lit "together").
Definition sendFireworksMessage :=
  sendOpenAICompatible (lit "https://api.fireworks.ai/inference/v1")
    (lit "fireworks").

Definition sendMistralMessage (apiKey : jsstring) (messages : list ChatTurn.t)
    (model : jsstring) : Async AIResponse.t :=
  let mistralMessages :=
    map (fun msg => MistralSDK.mkMessage (ChatTurn.role msg)
                      (ChatTurn.content msg))
      messages in
  response <- await (Mistral_chat_complete apiKey
                       (MistralSDK.mkParams model mistralMessages)) ;;
  resolve (AIResponse.mk
             (or_else (match MistralSDK.choices response with
                       | Some (c :: _) => c
                       | _ => None
                       end) [])
             model
             (lit "mistral")
             (match MistralSDK.usage response with
              | Some u => Some (mkUsage (MistralSDK.prompt_tokens u)
                                        (MistralSDK.completion_tokens u)
                                        (MistralSDK.total_tokens u))
              | None => None
              end)).

(** [messages[messages.length - 1]]. *)
Definition last_message (messages : list ChatTurn.t) : option ChatTurn.t :=
  List.last (map Some messages) None.

Definition sendCohereMessage (apiKey : jsstring) (messages : list ChatTurn.t)
    (model : jsstring) : Async AIResponse.t :=
  let lastMessage := last_message messages in
  let chatHistory :=
    map (fun msg =>
           CohereSDK.mkTurn
             (match ChatTurn.role msg with
              | user => CohereSDK.USER
              | assistant => CohereSDK.CHATBOT
              end)
             (ChatTurn.content msg))
      (removelast messages) in
  match lastMessage with
  | None => throw TypeError
  | Some lastMessage' =>
      response <- await (Cohere_chat apiKey
                           (CohereSDK.mkParams model
                              (ChatTurn.content lastMessage')
                              (match chatHistory with
                               | _ :: _ => Some chatHistory
                               | [] => None
                               end))) ;;
      resolve (AIResponse.mk (or_else (CohereSDK.text response) []) model
                 (lit "cohere") None)
  end.

(** [sendMessage(provider, apiKey, messages, model?)]. The [case] labels of
    its [switch] are the members of [AIProvider]; any other string reaches
    [default]. *)
Definition sendMessage (provider : jsstring) (apiKey : jsstring)
    (messages : list ChatTurn.t) (model : option jsstring)
  : Async AIResponse.t :=
  match AIProvider_parse provider with
  | Some p =>
      let selectedModel := or_else model (DEFAULT_MODELS p) in
      match p with
      | openai => sendOpenAIMessage apiKey messages selectedModel
      | anthropic => sendAnthropicMessage apiKey messages selectedModel
      | google => sendGoogleMessage apiKey messages selectedModel
      | huggingface => sendHuggingFaceMessage apiKey messages selectedModel
      | cerebras => sendCerebrasMessage apiKey messages selectedModel
      | sambanova => sendSambanovaMessage apiKey messages selectedModel
      | mistral => sendMistralMessage apiKey messages selectedModel
      | cohere => sendCohereMessage apiKey messages selectedModel
      | xai => sendXAIMessage apiKey messages selectedModel
      | perplexity => sendPerplexityMessage apiKey messages selectedModel
      | together => sendTogetherMessage apiKey messages selectedModel
      | fireworks => sendFireworksMessage apiKey messages selectedModel
      end
  | None => throw (JsError (lit "Unsupported provider: " ++ provider))
  end.

Definition getAvailableModels (provider : jsstring) : list jsstring :=
  match AIProvider_parse provider with
  | Some openai => [lit "gpt-4o"; lit "gpt-4o-mini"; lit "gpt-3.5-turbo"]
  | Some anthropic =>
      [lit "claude-sonnet-4-20250514"; lit "claude-3-7-sonnet-20250219";
       lit "claude-3-haiku-20240307"]
  | Some google =>
      [lit "gemini-2.5-flash"; lit "gemini-2.5-pro"; lit "gemini-1.5-flash"]
  | Some huggingface =>
      [lit "meta-llama/Llama-3.2-11B-Vision-Instruct";
       lit "meta-llama/Llama-3.1-8B-Instruct"; lit "microsoft/DialoGPT-medium"]
  | Some cerebras => [lit "llama3.1-8b"; lit "llama3.1-70b"]
  | Some sambanova =>
      [lit "Meta-Llama-3.1-8B-Instruct"; lit "Meta-Llama-3.1-70B-Instruct"]
  | Some mistral =>
      [lit "mistral-large-latest"; lit "mistral-medium-latest";
       lit "mistral-small-latest"; lit "codestral-latest"]
  | Some cohere => [lit "command-r-plus"; lit "command-r"; lit "command-light"]
  | Some xai => [lit "grok-beta"; lit "grok-vision-beta"]
  | Some perplexity =>
      [lit "llama-3.1-sonar-large-128k-online";
       lit "llama-3.1-sonar-small-128k-online";
       lit "llama-3.1-sonar-huge-128k-online"]
  | Some together =>
      [lit "meta-llama/Meta-Llama-3.1-8B-Instruct-Turbo";
       lit "meta-llama/Meta-Llama-3.1-70B-Instruct-Turbo";
       lit "microsoft/WizardLM-2-8x22B"]
  | Some fireworks =>
      [lit "accounts/fireworks/models/llama-v3p1-8b-instruct";
       lit "accounts/fireworks/models/mixtral-8x7b-instruct";
       lit "accounts/fireworks/models/yi-large"]
  | None => []
  end.

Local Close Scope async_scope.

(* ================================================================= *)
(** ** Request bodies and their schemas ([shared/schema.ts]) *)

(** A parsed JSON value. In an object a later binding of a key wins, as in
    [JSON.parse] and in an object literal. *)
#[warnings="-register-all"]
Inductive JSON :=
| JNull
| JBool (b : bool)
| JNum (n : Z)
| JStr (s : jsstring)
| JArr (items : list JSON)
| JObj (fields : list (jsstring * JSON)).

Fixpoint fields_get (k : jsstring) (fields : list (jsstring * JSON))
  : option JSON :=
  match fields with
  | [] => None
  | (k', v) :: rest =>
      match fields_get k rest with
      | Some v' => Some v'
      | None => if streq k k' then Some v else None
      end
  end.

(** [{ ...body, [k]: v }], as far as the schemas read it: the elements an
    array would spread sit under numeric keys, which no schema has. *)
Definition spread_with (body : JSON) (k : jsstring) (v : JSON)
  : list (jsstring * JSON) :=
  match body with
  | JObj fields => fields ++ [(k, v)]
  | _ => [(k, v)]
  end.

(** [z.string()]. *)
Definition z_string (v : option JSON) : option jsstring :=
  match v with
  | Some (JStr s) => Some s
  | _ => None
  end.

(** [z.boolean()]. *)
Definition z_boolean (v : option JSON) : option bool :=
  match v with
  | Some (JBool b) => Some b
  | _ => None
  end.

(** [inner.nullable().optional()]: [None] when the parse throws. *)
Definition z_nullable_optional {A : Type} (inner : option JSON -> option A)
    (v : option JSON) : option (option A) :=
  match v with
  | None | Some JNull => Some None
  | Some _ => option_map Some (inner v)
  end.

(** [inner.optional()]. *)
Definition z_optional {A : Type} (inner : option JSON -> option A)
    (v : option JSON) : option (option A) :=
  match v with
  | None => Some None
  | Some _ => option_map Some (inner v)
  end.

Fixpoint all_some {A : Type} (l : list (option A)) : option (list A) :=
  match l with
  | [] => Some []
  | None :: _ => None
  | Some a :: rest => option_map (cons a) (all_some rest)
  end.

(** [z.array(inner)]. *)
Definition z_array {A : Type} (inner : option JSON -> option A)
    (v : option JSON) : option (list A) :=
  match v with
  | Some (JArr items) => all_some (map (fun i => inner (Some i)) items)
  | _ => None
  end.

Definition insertConversationSchema_parse (fields : list (jsstring * JSON))
  : option InsertConversation.t :=
  match z_string (fields_get (lit "title") fields),
        z_nullable_optional z_string (fields_get (lit "userId") fields),
        z_string (fields_get (lit "provider") fields),
        z_string (fields_get (lit "model") fields) with
  | Some title, Some userId, Some provider, Some model =>
      Some (InsertConversation.mk title userId provider model)
  | _, _, _, _ => None
  end.

Definition insertApiKeySchema_parse (fields : list (jsstring * JSON))
  : option InsertApiKey.t :=
  match z_string (fields_get (lit "userId") fields),
        z_string (fields_get (lit "provider") fields),
        z_string (fields_get (lit "keyValue") fields),
        z_nullable_optional z_boolean (fields_get (lit "isActive") fields) with
  | Some userId, Some provider, Some keyValue, Some isActive =>
      Some (InsertApiKey.mk userId provider keyValue isActive)
  | _, _, _, _ => None
  end.

Inductive AttachmentType := pdf | doc | txt.

Module Attachment.
Record t := mk { type : AttachmentType; name : jsstring; content : jsstring }.
End Attachment.

Module ChatMessage.
Record t := mk {
  content : jsstring;
  images : option (list jsstring);
  attachments : option (list Attachment.t)
}.
End ChatMessage.

Definition z_attachment_type (v : option JSON) : option AttachmentType :=
  match z_string v with
  | Some s =>
      if streq s (lit "pdf") then Some pdf
      else if streq s (lit "doc") then Some doc
      else if streq s (lit "txt") then Some txt
      else None
  | None => None
  end.

Definition z_attachment (v : option JSON) : option Attachment.t :=
  match v with
  | Some (JObj fields) =>
      match z_attachment_type (fields_get (lit "type") fields),
            z_string (fields_get (lit "name") fields),
            z_string (fields_get (lit "content") fields) with
      | Some ty, Some name, Some content => Some (Attachment.mk ty name content)
      | _, _, _ => None
      end
  | _ => None
  end.

Definition ChatMessageSchema_parse (body : JSON) : option ChatMessage.t :=
  match body with
  | JObj fields =>
      match z_string (fields_get (lit "content") fields),
            z_optional (z_array z_string) (fields_get (lit "images") fields),
            z_optional (z_array z_attachment)
              (fields_get (lit "attachments") fields) with
      | Some content, Some images, Some attachments =>
          Some (ChatMessage.mk content images attachments)
      | _, _, _ => None
      end
  | _ => None
  end.

(* ================================================================= *)
(** ** The REST handlers ([server/routes.ts]) *)

Inductive Body :=
| error_body (error : jsstring)                   (* [{ error }] *)
| conversation_body (c : Conversation.t)
| conversations_body (l : list Conversation.t)
| messages_body (l : list Message.t)
| exchange_body (userMessage assistantMessage : Message.t)
| api_keys_body (l : list ApiKey.t)
| api_key_body (k : ApiKey.t)
| success_body                                    (* [{ success: true }] *)
| models_body (models : list jsstring).           (* [{ models }] *)

Record HttpResponse := mkResponse { status : Z; body : Body }.

(** [res.json(b)]. *)
Definition json (b : Body) : HttpResponse := mkResponse 200 b.

(** [res.status(code).json({ error })]. *)
Definition fail (code : Z) (error : string) : HttpResponse :=
  mkResponse code (error_body (lit error)).

Definition mockUserId : jsstring := lit "user-1".

(** The forty bullets (U+2022) that follow the visible prefix of a key. *)
Definition MASK : jsstring := repeat 8226%N 40.

(** [{ ...key, keyValue: key.keyValue.substring(0, 8) + '....' }]. *)
Definition sanitize (key : ApiKey.t) : ApiKey.t :=
  ApiKey.with_keyValue (substring (ApiKey.keyValue key) 0 8 ++ MASK) key.

(** [GET /api/conversations]. *)
Definition get_conversations (s : MemStorage) : MemStorage * HttpResponse :=
  (s, json (conversations_body (getConversationsByUserId mockUserId s))).

(** [POST /api/conversations]. *)
Definition post_conversations (uuid : jsstring) (now : Z) (req_body : JSON)
    (s : MemStorage) : MemStorage * HttpResponse :=
  match insertConversationSchema_parse
          (spread_with req_body (lit "userId") (JStr mockUserId)) with
  | Some validatedData =>
      let (s', conversation) := createConversation uuid now validatedData s in
      (s', json (conversation_body conversation))
  | None => (s, fail 400 "Invalid conversation data")
  end.

(** [!conversation || conversation.userId !== mockUserId]. *)
Definition owned (c : option Conversation.t) : option Conversation.t :=
  match c with
  | Some conversation =>
      if opt_streq (Conversation.userId conversation) mockUserId
      then Some conversation else None
  | None => None
  end.

(** [GET /api/conversations/:id/messages]. *)
Definition get_messages (id : jsstring) (s : MemStorage)
  : MemStorage * HttpResponse :=
  match owned (getConversation id s) with
  | None => (s, fail 404 "Conversation not found")
  | Some _ => (s, json (messages_body (getMessagesByConversationId id s)))
  end.

(** [(msg.metadata as any)?.images]. *)
Definition metadata_images (m : option Metadata) : option (list jsstring) :=
  match m with
  | Some (MetaImages images) => Some images
  | _ => None
  end.

(** [POST /api/conversations/:id/messages]. [uuid1], [now1] serve the user
    message, [uuid2], [now2] the assistant message, [now3] the [updatedAt]
    of the update and [now4] the clock read inside [updateConversation]. *)
Definition post_messages (uuid1 uuid2 : jsstring) (now1 now2 now3 now4 : Z)
    (id : jsstring) (req_body : JSON) (s : MemStorage)
  : IO (MemStorage * HttpResponse) :=
  match owned (getConversation id s) with
  | None => Ret (s, fail 404 "Conversation not found")
  | Some conversation =>
      match ChatMessageSchema_parse req_body with
      | None => Ret (s, fail 500 "Failed to send message")
      | Some messageData =>
          match getApiKey mockUserId (Conversation.provider conversation) s with
          | None =>
              Ret (s, mkResponse 400
                        (error_body (lit "API key not configured for "
                                     ++ Conversation.provider conversation)))
          | Some apiKey =>
              let (s1, userMessage) :=
                createMessage uuid1 now1
                  (InsertMessage.mk id user (ChatMessage.content messageData)
                     (match ChatMessage.images messageData with
                      | Some images => Some (MetaImages images)
                      | None => None
                      end)) s in
              let messages := getMessagesByConversationId id s1 in
              let chatHistory :=
                map (fun msg => ChatTurn.mk (Message.role msg)
                                  (Message.content msg)
                                  (metadata_images (Message.metadata msg)))
                  messages in
              io_bind
                (sendMessage (Conversation.provider conversation)
                   (ApiKey.keyValue apiKey) chatHistory
                   (Some (Conversation.model conversation)))
                (fun r =>
                   match r with
                   | Err _ => Ret (s1, fail 500 "Failed to send message")
                   | Ok aiResponse =>
                       let (s2, assistantMessage) :=
                         createMessage uuid2 now2
                           (InsertMessage.mk id assistant
                              (AIResponse.content aiResponse)
                              (Some (MetaUsage (AIResponse.usage aiResponse))))
                           s1 in
                       let (s3, _) :=
                         updateConversation id
                           (PartialConversation.mk None None None None None
                              None (Some now3))
                           now4 s2 in
                       Ret (s3, json (exchange_body userMessage assistantMessage))
                   end)
          end
      end
  end.

(** [DELETE /api/conversations/:id]. *)
Definition delete_conversation (id : jsstring) (s : MemStorage)
  : MemStorage * HttpResponse :=
  match owned (getConversation id s) with
  | None => (s, fail 404 "Conversation not found")
  | Some _ =>
      let (s', _) := deleteConversation id s in
      (s', json success_body)
  end.

(** [GET /api/api-keys]. *)
Definition get_api_keys (s : MemStorage) : MemStorage * HttpResponse :=
  (s, json (api_keys_body (map sanitize (getApiKeysByUserId mockUserId s)))).

(** [POST /api/api-keys]. *)
Definition post_api_keys (uuid : jsstring) (now : Z) (req_body : JSON)
    (s : MemStorage) : MemStorage * HttpResponse :=
  match insertApiKeySchema_parse
          (spread_with req_body (lit "userId") (JStr mockUserId)) with
  | Some validatedData =>
      let (s', apiKey) := setApiKey uuid now validatedData s in
      (s', json (api_key_body (sanitize apiKey)))
  | None => (s, fail 400 "Invalid API key data")
  end.

(** [DELETE /api/api-keys/:provider]. *)
Definition delete_api_key (provider : jsstring) (s : MemStorage)
  : MemStorage * HttpResponse :=
  match AIProvider_parse provider with
  | Some p =>
      let (s', _) := deleteApiKey mockUserId (provider_name p) s in
      (s', json success_body)
  | None => (s, fail 400 "Invalid provider")
  end.

(** [GET /api/providers/:provider/models]. *)
Definition get_models (provider : jsstring) (s : MemStorage)
  : MemStorage * HttpResponse :=
  match AIProvider_parse provider with
  | Some p => (s, json (models_body (getAvailableModels (provider_name p))))
  | None => (s, fail 400 "Invalid provider")
  end.

(* ================================================================= *)
(** ** The update route and the client's request bodies *)

(** Truthiness of a value read from a body; [None] is [undefined]. *)
Definition json_truthy (v : option JSON) : bool :=
  match v with
  | None | Some JNull => false
  | Some (JBool b) => b
  | Some (JNum n) => negb (n =? 0)
  | Some (JStr s) => truthy s
  | Some (JArr _) | Some (JObj _) => true
  end.

(** [req.body[k]] for one of the keys the handlers destructure. *)
Definition body_get (req_body : JSON) (k : string) : option JSON :=
  match req_body with
  | JObj fields => fields_get (lit k) fields
  | _ => None
  end.

(** [if (v) updates.k = v] for a field the store types as a string:
    [Some None] leaves the field alone, [Some (Some s)] sets it, and [None]
    stands for a truthy value that is not a string, which the code stores as
    it is and the typed store of this development cannot hold. *)
Definition string_update (v : option JSON) : option (option jsstring) :=
  if json_truthy v then
    match v with
    | Some (JStr s) => Some (Some s)
    | _ => None
    end
  else Some None.

(** [if (provider) { AIProvider.parse(provider); updates.provider = provider }]:
    [None] when [parse] throws. *)
Definition provider_update (v : option JSON) : option (option jsstring) :=
  if json_truthy v then
    match v with
    | Some (JStr s) =>
        match AIProvider_parse s with
        | Some p => Some (Some (provider_name p))
        | None => None
        end
    | _ => None
    end
  else Some None.

(** [PATCH /api/conversations/:id]. The result is [None] only where
    [string_update] is: on a body whose [title] or [model] is a truthy value
    other than a string. *)
Definition patch_conversation (now : Z) (id : jsstring) (req_body : JSON)
    (s : MemStorage) : option (MemStorage * HttpResponse) :=
  match req_body with
  | JNull => Some (s, fail 400 "Invalid update data")
  | _ =>
      match owned (getConversation id s) with
      | None => Some (s, fail 404 "Conversation not found")
      | Some _ =>
          match provider_update (body_get req_body "provider") with
          | None => Some (s, fail 400 "Invalid update data")
          | Some provider =>
              match string_update (body_get req_body "title"),
                    string_update (body_get req_body "model") with
              | Some title, Some model =>
                  match updateConversation id
                          (PartialConversation.mk None title None provider
                             model None None) now s with
                  | (s', Some updated) =>
                      Some (s', json (conversation_body updated))
                  | (_, None) => None
                  end
              | _, _ => None
              end
          end
      end
  end.

(** The body [apiRequest] sends for [{ content, images }]
    ([use-chat.ts], [chat-input.tsx]): [JSON.stringify] leaves out a
    property that is [undefined]. *)
Definition chat_request_body (content : jsstring)
    (images : option (list jsstring)) : JSON :=
  JObj ((lit "content", JStr content)
        :: match images with
           | Some l => [(lit "images", JArr (map JStr l))]
           | None => []
           end).

(** The body of [createConversationMutation] ([chat-input.tsx]):
    [{ title: message.slice(0, 50) || 'New Chat', provider: 'openai',
       model: 'gpt-4o' }]. *)
Definition new_conversation_body (message : jsstring) : JSON :=
  JObj [(lit "title", JStr (or_else (Some (firstn 50 message)) (lit "New Chat")));
        (lit "provider", JStr (lit "openai"));
        (lit "model", JStr (lit "gpt-4o"))].

(** What [handleSend] of [chat-input.tsx] starts. *)
Inductive ClientAction :=
| no_action
| create_conversation (req_body : JSON)
| send_to (conversationId : jsstring) (req_body : JSON).

(** [attachedImages.length > 0 ? attachedImages : undefined]. *)
Definition attached (attachedImages : list jsstring) : option (list jsstring) :=
  match attachedImages with
  | [] => None
  | _ :: _ => Some attachedImages
  end.

(** [handleSend()], from the state it reads: the text of the input, the
    attached images, the conversation shown ([None] for [null]) and whether
    a send is pending. The documents it passes along are dropped by the
    mutation function, which forwards [content] and [images] only. *)
Definition handleSend (message : jsstring) (attachedImages : list jsstring)
    (conversationId : option jsstring) (isPending : bool) : ClientAction :=
  if negb (truthy (trim message)) || isPending then no_action
  else
    match conversationId with
    | Some id =>
        if truthy id
        then send_to id (chat_request_body message (attached attachedImages))
        else create_conversation (new_conversation_body message)
    | None => create_conversation (new_conversation_body message)
    end.

(* ================================================================= *)
(** ** Reading an outbound request *)

(** The credential and the model a request carries. *)
Definition credential_of (c : Outbound) : jsstring :=
  match c with
  | OpenAI_chat_completions_create client _ => OpenAI.apiKey client
  | Anthropic_messages_create apiKey _ => apiKey
  | Google_models_generateContent apiKey _ => apiKey
  | Hf_textGeneration accessToken _ => accessToken
  | Mistral_chat_complete apiKey _ => apiKey
  | Cohere_chat token _ => token
  end.

Definition model_of (c : Outbound) : jsstring :=
  match c with
  | OpenAI_chat_completions_create _ params => OpenAI.model params
  | Anthropic_messages_create _ params => AnthropicSDK.model params
  | Google_models_generateContent _ params => GenAI.model params
  | Hf_textGeneration _ params => Hf.model params
  | Mistral_chat_complete _ params => MistralSDK.model params
  | Cohere_chat _ params => CohereSDK.model params
  end.




(** The texts a Cohere request carries, oldest first. *)
Definition cohere_texts (params : CohereSDK.Params) : list jsstring :=
  map CohereSDK.message
    (match CohereSDK.chatHistory params with Some l => l | None => [] end)
  ++ [CohereSDK.message_text params].

(* ================================================================= *)
(** ** Store invariants *)

(** Every entry sits under the [id] of its value, and no key is listed
    twice. [createMessage] and [setApiKey] insert under the identifier they
    put into the record, so their maps are of this kind. *)
Definition keyed_by {V : Type} (idf : V -> jsstring) (m : JSMap V) : Prop :=
  NoDup (map_keys m) /\ Forall (fun e => idf (snd e) = fst e) m.

Definition wf_storage (s : MemStorage) : Prop :=
  NoDup (map_keys (users s))
  /\ NoDup (map_keys (conversations s))
  /\ keyed_by Message.id (messages s)
  /\ keyed_by ApiKey.id (apiKeys s).

(** What the [forEach] of [setApiKey] leaves in a map keyed by id: each key
    of the pair is deactivated in place, nothing moves and nothing is added. *)
Definition deactivate_pair (userId provider : jsstring)
    (e : jsstring * ApiKey.t) : jsstring * ApiKey.t :=
  if same_pair userId provider (snd e)
  then (fst e, ApiKey.deactivate (snd e)) else e.

(** The active keys of one (user, provider) pair. *)
Definition active_keys (userId provider : jsstring) (s : MemStorage)
  : list ApiKey.t :=
  filter (fun key => same_pair userId provider key && ApiKey.isActive key)
    (map_values (apiKeys s)).

Definition at_most_one_active (s : MemStorage) : Prop :=
  forall userId provider,
    (List.length (active_keys userId provider s) <= 1)%nat.

(** One call of a method of [MemStorage] that writes. [randomUUID] gives
    [setApiKey] an identifier that is not yet a key of the map. *)
Inductive store_step : MemStorage -> MemStorage -> Prop :=
| step_createUser id insertUser s :
    store_step s (fst (createUser id insertUser s))
| step_createConversation id now conversation s :
    store_step s (fst (createConversation id now conversation s))
| step_updateConversation id updates now s :
    store_step s (fst (updateConversation id updates now s))
| step_deleteConversation id s :
    store_step s (fst (deleteConversation id s))
| step_createMessage id now message s :
    store_step s (fst (createMessage id now message s))
| step_deleteMessages conversationId s :
    store_step s (fst (deleteMessagesByConversationId conversationId s))
| step_setApiKey id now apiKey s :
    map_get id (apiKeys s) = None ->
    store_step s (fst (setApiKey id now apiKey s))
| step_deleteApiKey userId provider s :
    store_step s (fst (deleteApiKey userId provider s)).

(** The states of the store: the empty one at start-up, and what the
    methods make of it. *)
Inductive reachable : MemStorage -> Prop :=
| reachable_empty : reachable empty_storage
| reachable_step s s' : reachable s -> store_step s s' -> reachable s'.

(** What a history turn says, its images apart. *)
Definition turn_text (msg : ChatTurn.t) : Role * jsstring :=
  (ChatTurn.role msg, ChatTurn.content msg).

(** The providers whose adapter has no image support. *)
Definition without_image_support : list AIProviderType :=
  [huggingface; cerebras; sambanova; mistral; cohere; xai; perplexity;
   together; fireworks].

(** Two keys that agree on everything a masked response shows. *)
Definition same_visible (k1 k2 : ApiKey.t) : Prop :=
  ApiKey.id k1 = ApiKey.id k2
  /\ ApiKey.userId k1 = ApiKey.userId k2
  /\ ApiKey.provider k1 = ApiKey.provider k2
  /\ ApiKey.isActive k1 = ApiKey.isActive k2
  /\ ApiKey.createdAt k1 = ApiKey.createdAt k2
  /\ firstn 8 (ApiKey.keyValue k1) = firstn 8 (ApiKey.keyValue k2).

(** An upstream that answers every call, with at least one choice where the
    reply has choices the adapter reads unguarded. *)
Definition answers (up : Upstream) : Prop :=
  forall c : Outbound,
    match c as c0 return Result (reply_type c0) -> Prop with
    | OpenAI_chat_completions_create _ _ =>
        fun r => exists resp, r = Ok resp /\ OpenAI.choices resp <> []
    | Anthropic_messages_create _ _ => fun r => exists resp, r = Ok resp
    | Google_models_generateContent _ _ => fun r => exists resp, r = Ok resp
    | Hf_textGeneration _ _ => fun r => exists resp, r = Ok resp
    | Mistral_chat_complete _ _ => fun r => exists resp, r = Ok resp
    | Cohere_chat _ _ => fun r => exists resp, r = Ok resp
    end (up c).

(* ================================================================= *)
(** ** Sample data *)

Module Sample.

Definition conv1 : Conversation.t :=
  Conversation.mk (lit "c1") (lit "Test") (Some mockUserId) (lit "openai")
    (lit "gpt-4o") 100 100.

Definition msgA : Message.t :=
  Message.mk (lit "m1") (lit "c1") user (lit "Hello") None 30.
Definition msgB : Message.t :=
  Message.mk (lit "m2") (lit "c1") assistant (lit "Hi") None 10.
Definition msgC : Message.t :=
  Message.mk (lit "m3") (lit "c2") user (lit "Other") None 20.

Definition keyOld : ApiKey.t :=
  ApiKey.mk (lit "k1") mockUserId (lit "openai") (lit "sk-old-secret-0001")
    true 5.
Definition keyOther : ApiKey.t :=
  ApiKey.mk (lit "k2") mockUserId (lit "anthropic") (lit "sk-ant-secret-0002")
    true 6.

(** One conversation, three messages inserted out of time order, two keys. *)
Definition store1 : MemStorage :=
  mkStore []
    [(lit "c1", conv1)]
    [(lit "m1", msgA); (lit "m2", msgB); (lit "m3", msgC)]
    [(lit "k1", keyOld); (lit "k2", keyOther)].

(** [store1] with its messages listed in another order. *)
Definition store1_reordered : MemStorage :=
  mkStore []
    [(lit "c1", conv1)]
    [(lit "m3", msgC); (lit "m2", msgB); (lit "m1", msgA)]
    [(lit "k1", keyOld); (lit "k2", keyOther)].

(** The same conversation with no key configured. *)
Definition store_no_key : MemStorage :=
  mkStore [] [(lit "c1", conv1)] [] [].

(** A first OpenAI key for the mock user. *)
Definition firstOpenAI : InsertApiKey.t :=
  InsertApiKey.mk mockUserId (lit "openai") (lit "sk-first-secret-0001") None.

(** A new OpenAI key for the mock user. *)
Definition newOpenAI : InsertApiKey.t :=
  InsertApiKey.mk mockUserId (lit "openai") (lit "sk-new-secret-0003") None.

Definition hello : JSON := JObj [(lit "content", JStr (lit "Hello"))].

(** A request to create a conversation with a provider outside the
    enumeration, and one to store a key for it. *)
Definition bogus_conversation : JSON :=
  JObj [(lit "title", JStr (lit "T")); (lit "provider", JStr (lit "bogus"));
        (lit "model", JStr (lit "m"))].
Definition bogus_key : JSON :=
  JObj [(lit "provider", JStr (lit "bogus"));
        (lit "keyValue", JStr (lit "sk-bogus-secret"))].

(** [store1] with another secret behind the same first eight characters. *)
Definition keyOld' : ApiKey.t :=
  ApiKey.mk (lit "k1") mockUserId (lit "openai") (lit "sk-old-sXXXXXXXXXXXXXXXX")
    true 5.
Definition store1' : MemStorage :=
  mkStore []
    [(lit "c1", conv1)]
    [(lit "m1", msgA); (lit "m2", msgB); (lit "m3", msgC)]
    [(lit "k1", keyOld'); (lit "k2", keyOther)].

(** An upstream in which every service replies. *)
Definition up_ok : Upstream :=
  fun c =>
    match c as c0 return Result (reply_type c0) with
    | OpenAI_chat_completions_create _ _ =>
        Ok (OpenAI.mkChatCompletion
              [OpenAI.mkChoice (Some (lit "Hi there"))]
              (Some (OpenAI.mkUsageInfo 3 2 5)))
    | Anthropic_messages_create _ _ =>
        Ok (AnthropicSDK.mkReply [AnthropicSDK.reply_text (lit "Hi there")]
              (Some (AnthropicSDK.mkUsageInfo 3 2)))
    | Google_models_generateContent _ _ =>
        Ok (GenAI.mkReply (Some (lit "Hi there")))
    | Hf_textGeneration _ p =>
        Ok (Hf.mkReply (Hf.inputs p ++ lit " Hi there"))
    | Mistral_chat_complete _ _ =>
        Ok (MistralSDK.mkReply (Some [Some (lit "Hi there")]) None)
    | Cohere_chat _ _ => Ok (CohereSDK.mkReply (Some (lit "Hi there")))
    end.

(** An upstream in which every service rejects. *)
Definition up_down : Upstream :=
  fun c => Err (UpstreamError (lit "401 Incorrect API key provided")).

Definition turn1 : ChatTurn.t := ChatTurn.mk user (lit "Hello") None.
Definition turn1_img : ChatTurn.t :=
  ChatTurn.mk user (lit "Hello") (Some [lit "aGk="]).

End Sample.

(* ================================================================= *)
(** * Properties *)

(** ** Strings and maps *)

Lemma streq_refl (a : jsstring) : streq a a = true.
Proof. unfold streq. destruct (str_eq_dec a a); congruence. Qed.

Lemma streq_true (a b : jsstring) : streq a b = true <-> a = b.
Proof. unfold streq. destruct (str_eq_dec a b); split; congruence. Qed.

Lemma streq_false (a b : jsstring) : streq a b = false <-> a <> b.
Proof. unfold streq. destruct (str_eq_dec a b); split; congruence. Qed.

Lemma substring_prefix (s : jsstring) (n : nat) : substring s 0 n = firstn n s.
Proof.
  unfold substring. simpl. rewrite Nat.sub_0_r.
  destruct (Nat.le_ge_cases n (List.length s)) as [H | H].
  - now rewrite Nat.min_l.
  - rewrite Nat.min_r by assumption.
    now rewrite !firstn_all2 by lia.
Qed.

Section MapFacts.
Context {V : Type}.
Implicit Types (m : JSMap V) (k : jsstring) (v : V).

Lemma map_get_None_keys k m : map_get k m = None <-> ~ In k (map_keys m).
Proof.
  induction m as [| [k' v'] m IH]; simpl.
  - tauto.
  - destruct (str_eq_dec k k') as [-> | Hne].
    + split; [discriminate | intros H; exfalso; apply H; now left].
    + rewrite IH. split; [intros H [E | I]; congruence | tauto].
Qed.

Lemma map_get_In k v m : NoDup (map_keys m) -> In (k, v) m -> map_get k m = Some v.
Proof.
  induction m as [| [k' v'] m IH]; simpl; [tauto |].
  intros Hnd [E | I].
  - inversion E; subst. destruct (str_eq_dec k k); congruence.
  - inversion Hnd as [| ? ? Hnotin Hnd']; subst.
    destruct (str_eq_dec k k') as [-> | Hne].
    + exfalso. apply Hnotin. change k' with (fst (k', v)). now apply in_map.
    + now apply IH.
Qed.

Lemma map_get_Some_In k v m : map_get k m = Some v -> In (k, v) m.
Proof.
  induction m as [| [k' v'] m IH]; simpl; [discriminate |].
  destruct (str_eq_dec k k') as [-> | Hne].
  - intros [= ->]. now left.
  - intros H. right. now apply IH.
Qed.

Lemma map_set_keys_present k v m :
  In k (map_keys m) -> map_keys (map_set k v m) = map_keys m.
Proof.
  induction m as [| [k' v'] m IH]; simpl; [tauto |].
  destruct (str_eq_dec k k') as [-> | Hne]; simpl; [reflexivity |].
  intros [E | I]; [congruence |]. f_equal. now apply IH.
Qed.

Lemma map_set_absent k v m : map_get k m = None -> map_set k v m = m ++ [(k, v)].
Proof.
  induction m as [| [k' v'] m IH]; simpl; [reflexivity |].
  destruct (str_eq_dec k k'); [discriminate |].
  intros H. now rewrite IH.
Qed.

Lemma map_set_same k v m :
  NoDup (map_keys m) -> In (k, v) m -> map_set k v m = m.
Proof.
  induction m as [| [k' v'] m IH]; simpl; [tauto |].
  intros Hnd [E | I].
  - inversion E; subst. destruct (str_eq_dec k k); congruence.
  - inversion Hnd as [| ? ? Hnotin Hnd']; subst.
    destruct (str_eq_dec k k') as [-> | Hne].
    + exfalso. apply Hnotin. change k' with (fst (k', v)). now apply in_map.
    + f_equal. now apply IH.
Qed.

Lemma map_get_set_same k v m : map_get k (map_set k v m) = Some v.
Proof.
  induction m as [| [k' v'] m IH]; simpl.
  - destruct (str_eq_dec k k); congruence.
  - destruct (str_eq_dec k k') as [-> | Hne]; simpl.
    + destruct (str_eq_dec k' k'); congruence.
    + destruct (str_eq_dec k k'); congruence.
Qed.

Lemma map_get_set_other k k' v m :
  k' <> k -> map_get k' (map_set k v m) = map_get k' m.
Proof.
  intros Hne. induction m as [| [k0 v0] m IH]; simpl.
  - destruct (str_eq_dec k' k); congruence.
  - destruct (str_eq_dec k k0) as [-> | Hne0]; simpl.
    + destruct (str_eq_dec k' k0); congruence.
    + destruct (str_eq_dec k' k0); congruence.
Qed.

Lemma map_set_In k v m e :
  In e (map_set k v m) -> e = (k, v) \/ In e m.
Proof.
  induction m as [| [k' v'] m IH]; simpl.
  - intros [E | []]. now left.
  - destruct (str_eq_dec k k'); simpl; intuition auto.
Qed.

Lemma map_set_keys_NoDup k v m :
  NoDup (map_keys m) -> NoDup (map_keys (map_set k v m)).
Proof.
  intros Hnd.
  destruct (map_get k m) eqn:E.
  - rewrite map_set_keys_present; [assumption |].
    apply map_get_Some_In in E. change k with (fst (k, v0)). now apply in_map.
  - rewrite map_set_absent by assumption.
    unfold map_keys. rewrite map_app. simpl.
    apply NoDup_app; [assumption | repeat constructor; simpl; tauto |].
    intros x Hx [<- | []]. now apply map_get_None_keys in E.
Qed.

(** With distinct keys, [delete] is a filter on the key. *)
Lemma map_remove_filter k m :
  NoDup (map_keys m) ->
  map_remove k m = filter (fun e => negb (streq (fst e) k)) m.
Proof.
  induction m as [| [k' v'] m IH]; simpl; [reflexivity |].
  intros Hnd. inversion Hnd as [| ? ? Hnotin Hnd']; subst.
  destruct (str_eq_dec k k') as [-> | Hne].
  - rewrite streq_refl. simpl.
    symmetry. rewrite <- (filter_ext_in (fun _ => true)).
    + clear. induction m as [| e m IH]; simpl; congruence.
    + intros [k0 v0] Hin. simpl.
      destruct (streq k0 k') eqn:E; [| reflexivity].
      apply streq_true in E. subst. exfalso. apply Hnotin.
      change k' with (fst (k', v0)). now apply in_map.
  - assert (streq k' k = false) as -> by (apply streq_false; congruence).
    simpl. f_equal. now apply IH.
Qed.

Lemma filter_keys_NoDup (p : jsstring * V -> bool) m :
  NoDup (map_keys m) -> NoDup (map_keys (filter p m)).
Proof.
  induction m as [| e m IH]; simpl; [trivial |].
  intros Hnd. inversion Hnd as [| ? ? Hnotin Hnd']; subst.
  destruct (p e); simpl; [| now apply IH].
  constructor; [| now apply IH].
  intros Hin. apply Hnotin. unfold map_keys in *.
  apply in_map_iff in Hin as [x [Hx Hin]]. apply filter_In in Hin as [Hin _].
  rewrite <- Hx. now apply in_map.
Qed.

Lemma map_has_true k m : map_has k m = true <-> exists v, map_get k m = Some v.
Proof.
  unfold map_has. destruct (map_get k m); split; eauto; try discriminate.
  intros [v H]. discriminate.
Qed.

End MapFacts.

(** ** Sorting *)

Section SortFacts.
Context {A : Type} (f : A -> Z).
Let cmp := fun a b : A => f a - f b.
Let le := fun a b : A => f a <= f b.

Lemma sort_insert_perm x l : Permutation (sort_insert cmp x l) (x :: l).
Proof.
  induction l as [| y l IH]; simpl; [reflexivity |].
  destruct (cmp x y <=? 0); [reflexivity |].
  rewrite IH. apply perm_swap.
Qed.

Lemma js_sort_perm l : Permutation (js_sort cmp l) l.
Proof.
  induction l as [| x l IH]; simpl; [reflexivity |].
  rewrite sort_insert_perm. now constructor.
Qed.

Lemma sort_insert_sorted x l :
  StronglySorted le l -> StronglySorted le (sort_insert cmp x l).
Proof.
  induction 1 as [| y l Hs IH Hall]; simpl.
  - repeat constructor.
  - destruct (cmp x y <=? 0) eqn:E.
    + apply Z.leb_le in E. unfold cmp in E.
      constructor; [now constructor |].
      constructor; [unfold le; lia |].
      eapply Forall_impl; [| exact Hall]. unfold le. intros; lia.
    + apply Z.leb_gt in E. unfold cmp in E.
      constructor; [assumption |].
      eapply Permutation_Forall; [symmetry; apply sort_insert_perm |].
      constructor; [unfold le; lia | assumption].
Qed.

Lemma js_sort_sorted l : StronglySorted le (js_sort cmp l).
Proof.
  induction l as [| x l IH]; simpl; [constructor |].
  now apply sort_insert_sorted.
Qed.

End SortFacts.

(** ** The invariants hold in every state of the store *)

Lemma keyed_by_set {V : Type} (idf : V -> jsstring) k v (m : JSMap V) :
  idf v = k -> keyed_by idf m -> keyed_by idf (map_set k v m).
Proof.
  intros Hid [Hnd Hall]. split; [now apply map_set_keys_NoDup |].
  apply Forall_forall. intros e He.
  apply map_set_In in He as [-> | He]; [assumption |].
  rewrite Forall_forall in Hall. now apply Hall.
Qed.

Lemma keyed_by_filter {V : Type} (idf : V -> jsstring) p (m : JSMap V) :
  keyed_by idf m -> keyed_by idf (filter p m).
Proof.
  intros [Hnd Hall]. split; [now apply filter_keys_NoDup |].
  rewrite Forall_forall in *. intros e He. apply filter_In in He. now apply Hall.
Qed.

Lemma keyed_by_remove {V : Type} (idf : V -> jsstring) k (m : JSMap V) :
  keyed_by idf m -> keyed_by idf (map_remove k m).
Proof.
  intros H. rewrite map_remove_filter by apply H. now apply keyed_by_filter.
Qed.

Lemma wf_empty : wf_storage empty_storage.
Proof. repeat split; constructor. Qed.

(** ** Removing a batch of entries *)

Lemma filter_all {A : Type} (p : A -> bool) (l : list A) :
  (forall x, In x l -> p x = true) -> filter p l = l.
Proof.
  induction l as [| x l IH]; simpl; [reflexivity |].
  intros H. rewrite (H x) by now left. f_equal. apply IH. intros; apply H. now right.
Qed.

Lemma filter_none {A : Type} (p : A -> bool) (l : list A) :
  (forall x, In x l -> p x = false) -> filter p l = [].
Proof.
  induction l as [| x l IH]; simpl; [reflexivity |].
  intros H. rewrite (H x) by now left. apply IH. intros; apply H. now right.
Qed.

Lemma filter_twice {A : Type} (p q : A -> bool) (l : list A) :
  filter p (filter q l) = filter (fun x => q x && p x) l.
Proof.
  induction l as [| x l IH]; simpl; [reflexivity |].
  destruct (q x); simpl; [destruct (p x) |]; now rewrite IH.
Qed.

Lemma filter_map_snd {V : Type} (p : V -> bool) (m : JSMap V) :
  filter p (map_values m) = map_values (filter (fun e => p (snd e)) m).
Proof.
  induction m as [| e m IH]; simpl; [reflexivity |].
  destruct (p (snd e)); simpl; now rewrite IH.
Qed.

Lemma fold_remove_filter {V : Type} (idf : V -> jsstring) (xs : list V) :
  forall m : JSMap V,
    NoDup (map_keys m) ->
    fold_left (fun m' x => map_remove (idf x) m') xs m
    = filter (fun e => negb (existsb (fun x => streq (fst e) (idf x)) xs)) m.
Proof.
  induction xs as [| x xs IH]; intros m Hnd; simpl.
  - symmetry. now apply filter_all.
  - rewrite IH by (rewrite map_remove_filter by assumption;
                   now apply filter_keys_NoDup).
    rewrite map_remove_filter by assumption. rewrite filter_twice.
    apply filter_ext. intros e. now rewrite negb_orb.
Qed.

(** In a map keyed by [idf], removing by identifier the values that satisfy
    [p] removes exactly the entries whose value satisfies [p]. *)
Lemma remove_selected {V : Type} (idf : V -> jsstring) (p : V -> bool)
    (m : JSMap V) :
  keyed_by idf m ->
  fold_left (fun m' x => map_remove (idf x) m') (filter p (map_values m)) m
  = filter (fun e => negb (p (snd e))) m.
Proof.
  intros [Hnd Hall]. rewrite fold_remove_filter by assumption.
  apply filter_ext_in. intros [k v] Hin. simpl. f_equal.
  rewrite Forall_forall in Hall.
  destruct (p v) eqn:Hp.
  - apply existsb_exists. exists v. split.
    + apply filter_In. split; [| assumption].
      change v with (snd (k, v)). now apply in_map.
    + apply streq_true. symmetry. exact (Hall _ Hin).
  - apply not_true_is_false. intros Hex.
    apply existsb_exists in Hex as [x [Hx Hk]].
    apply filter_In in Hx as [Hx Hpx]. apply streq_true in Hk.
    unfold map_values in Hx. apply in_map_iff in Hx as [[k' v'] [Hv' Hin']].
    simpl in Hv'. subst v'.
    assert (k' = k) as -> by (rewrite Hk; symmetry; exact (Hall _ Hin')).
    assert (x = v).
    { pose proof (map_get_In _ _ _ Hnd Hin) as E1.
      pose proof (map_get_In _ _ _ Hnd Hin') as E2. congruence. }
    congruence.
Qed.

Lemma map_get_remove_same {V : Type} k (m : JSMap V) :
  NoDup (map_keys m) -> map_get k (map_remove k m) = None.
Proof.
  intros Hnd. rewrite map_remove_filter by assumption.
  apply map_get_None_keys. intros Hin.
  unfold map_keys in Hin. apply in_map_iff in Hin as [e [He Hin]].
  apply filter_In in Hin as [_ Hne]. subst k.
  now rewrite streq_refl in Hne.
Qed.

(** ** Messages of a conversation *)

Lemma filter_perm {A : Type} (p : A -> bool) (l1 l2 : list A) :
  Permutation l1 l2 -> Permutation (filter p l1) (filter p l2).
Proof.
  induction 1 as [| x l1 l2 _ IH | x y l | l1 l2 l3 _ IH1 _ IH2]; simpl.
  - constructor.
  - destruct (p x); [now constructor | exact IH].
  - destruct (p x), (p y); try reflexivity. apply perm_swap.
  - now transitivity (filter p l2).
Qed.

(** C8. For every conversation id and every state of the store,
    [getMessagesByConversationId] returns the stored messages whose
    [conversationId] is the given one, each as often as it is stored and no
    other, in non-decreasing [createdAt] order; a store that holds the same
    messages in another order gives the same messages, sorted as well. *)
Theorem listMessages_sorted_exact (conversationId : jsstring) (s : MemStorage) :
  let result := getMessagesByConversationId conversationId s in
  StronglySorted
    (fun a b => Message.createdAt a <= Message.createdAt b) result
  /\ Permutation result
       (filter (fun msg => streq (Message.conversationId msg) conversationId)
          (map_values (messages s)))
  /\ (forall msg,
        In msg result <->
        In msg (map_values (messages s))
        /\ Message.conversationId msg = conversationId)
  /\ (forall s2,
        Permutation (map_values (messages s)) (map_values (messages s2)) ->
        Permutation result (getMessagesByConversationId conversationId s2)
        /\ StronglySorted
             (fun a b => Message.createdAt a <= Message.createdAt b)
             (getMessagesByConversationId conversationId s2)).
Proof.
  unfold getMessagesByConversationId. cbv zeta.
  split; [apply js_sort_sorted |].
  split; [apply js_sort_perm |].
  split.
  - intros msg. split.
    + intros Hin.
      apply (Permutation_in _ (js_sort_perm Message.createdAt _)) in Hin.
      apply filter_In in Hin as [Hin Heq]. now apply streq_true in Heq.
    + intros [Hin Heq].
      apply (Permutation_in _
               (Permutation_sym (js_sort_perm Message.createdAt _))).
      apply filter_In. split; [assumption | now apply streq_true].
  - intros s2 Hperm. split; [| apply js_sort_sorted].
    rewrite (js_sort_perm Message.createdAt).
    rewrite (js_sort_perm Message.createdAt
               (filter _ (map_values (messages s2)))).
    now apply filter_perm.
Qed.

Lemma listMessages_sorted_exact_witness :
  Permutation (getMessagesByConversationId (lit "c1") Sample.store1)
    (getMessagesByConversationId (lit "c1") Sample.store1_reordered)
  /\ map Message.id (getMessagesByConversationId (lit "c1") Sample.store1)
     = [lit "m2"; lit "m1"].
Proof.
  split; [| reflexivity].
  apply (listMessages_sorted_exact (lit "c1") Sample.store1).
  change (Permutation [Sample.msgA; Sample.msgB; Sample.msgC]
            [Sample.msgC; Sample.msgB; Sample.msgA]).
  apply Permutation_rev.
Defined.

(** ** Deleting a conversation *)

Lemma deleteMessages_spec (id : jsstring) (s : MemStorage) :
  keyed_by Message.id (messages s) ->
  fst (deleteMessagesByConversationId id s)
  = set_messages
      (filter (fun e => negb (streq (Message.conversationId (snd e)) id))
         (messages s)) s.
Proof.
  intros Hk. unfold deleteMessagesByConversationId. simpl.
  now rewrite (remove_selected Message.id
                 (fun msg => streq (Message.conversationId msg) id)).
Qed.

(** C7. In a store whose messages sit under their own ids,
    [deleteConversation id] deletes the messages of the conversation, then
    the conversation, and returns [true] exactly when the conversation
    existed; right after, the conversation has no messages, and deleting it
    again returns [false]. *)
Theorem deleteConversation_cascade (id : jsstring) (s : MemStorage) :
  wf_storage s ->
  let s' := fst (deleteConversation id s) in
  deleteConversation id s
  = (set_conversations (map_remove id (conversations s))
       (fst (deleteMessagesByConversationId id s)),
     map_has id (conversations s))
  /\ messages s'
     = filter (fun e => negb (streq (Message.conversationId (snd e)) id))
         (messages s)
  /\ (snd (deleteConversation id s) = true
      <-> exists c, getConversation id s = Some c)
  /\ getConversation id s' = None
  /\ getMessagesByConversationId id s' = []
  /\ snd (deleteConversation id s') = false
  /\ wf_storage s'.
Proof.
  intros (Hu & Hc & Hm & Ha).
  assert (Hdel : deleteConversation id s
                 = (set_conversations (map_remove id (conversations s))
                      (fst (deleteMessagesByConversationId id s)),
                    map_has id (conversations s))) by reflexivity.
  cbv zeta. rewrite Hdel.
  rewrite deleteMessages_spec by assumption. simpl.
  assert (Hgone : map_get id (map_remove id (conversations s)) = None)
    by now apply map_get_remove_same.
  assert (Hnone :
            filter (fun msg => streq (Message.conversationId msg) id)
              (map_values
                 (filter (fun e => negb (streq (Message.conversationId (snd e)) id))
                    (messages s))) = []).
  { apply filter_none. intros msg Hin. unfold map_values in Hin.
    apply in_map_iff in Hin as [e [<- Hin]]. apply filter_In in Hin as [_ Hne].
    now apply negb_true_iff in Hne. }
  repeat split.
  - intros H. now apply map_has_true.
  - intros H. now apply map_has_true.
  - exact Hgone.
  - unfold getMessagesByConversationId. simpl. now rewrite Hnone.
  - unfold map_has. now rewrite Hgone.
  - assumption.
  - rewrite map_remove_filter by assumption. now apply filter_keys_NoDup.
  - simpl. apply filter_keys_NoDup, Hm.
  - simpl. apply (keyed_by_filter Message.id), Hm.
  - apply Ha.
  - apply Ha.
Qed.

(** ** Setting an API key *)

Lemma deactivate_pair_fst u p e : fst (deactivate_pair u p e) = fst e.
Proof. unfold deactivate_pair. now destruct (same_pair u p (snd e)). Qed.

Lemma deactivate_pair_keys u p (m : JSMap ApiKey.t) :
  map_keys (map (deactivate_pair u p) m) = map_keys m.
Proof.
  unfold map_keys. rewrite map_map. apply map_ext. apply deactivate_pair_fst.
Qed.

Lemma fold_set_present {V : Type} (idf : V -> jsstring) (g : V -> V)
    (xs : list V) (m : JSMap V) :
  NoDup (map_keys m) ->
  (forall x, In x xs -> In (idf x, g x) m) ->
  fold_left (fun m' x => map_set (idf x) (g x) m') xs m = m.
Proof.
  intros Hnd. induction xs as [| x xs IH]; simpl; [reflexivity |].
  intros Hin. rewrite map_set_same; [| assumption | apply Hin; now left].
  apply IH. intros y Hy. apply Hin. now right.
Qed.

Lemma deactivate_all_spec u p (m : JSMap ApiKey.t) :
  keyed_by ApiKey.id m ->
  deactivate_all u p m = map (deactivate_pair u p) m.
Proof.
  intros [Hnd Hall]. unfold deactivate_all.
  change (fun e : jsstring * ApiKey.t =>
            if same_pair u p (snd e)
            then (fst e, ApiKey.deactivate (snd e)) else e)
    with (deactivate_pair u p).
  apply fold_set_present.
  - now rewrite deactivate_pair_keys.
  - intros x Hx. apply filter_In in Hx as [Hx Hp].
    unfold map_values in Hx. apply in_map_iff in Hx as [[k v] [Hv Hin]].
    simpl in Hv. subst v.
    rewrite Forall_forall in Hall. pose proof (Hall _ Hin) as Hk. simpl in Hk.
    apply in_map_iff. exists (k, x). split; [| assumption].
    unfold deactivate_pair. simpl. rewrite Hp. now rewrite Hk.
Qed.

Lemma setApiKey_apiKeys id now (apiKey : InsertApiKey.t) (s : MemStorage) :
  wf_storage s ->
  map_get id (apiKeys s) = None ->
  apiKeys (fst (setApiKey id now apiKey s))
  = map (deactivate_pair (InsertApiKey.userId apiKey)
           (InsertApiKey.provider apiKey)) (apiKeys s)
    ++ [(id, snd (setApiKey id now apiKey s))].
Proof.
  intros (_ & _ & _ & Ha) Hfresh. unfold setApiKey. simpl.
  rewrite deactivate_all_spec by assumption.
  apply map_set_absent. apply map_get_None_keys.
  rewrite deactivate_pair_keys. now apply map_get_None_keys.
Qed.

Lemma keyed_by_deactivate u p (m : JSMap ApiKey.t) :
  keyed_by ApiKey.id m -> keyed_by ApiKey.id (map (deactivate_pair u p) m).
Proof.
  intros [Hnd Hall]. split; [now rewrite deactivate_pair_keys |].
  apply Forall_map. eapply Forall_impl; [| exact Hall].
  intros e He. unfold deactivate_pair. now destruct (same_pair u p (snd e)).
Qed.

Lemma setApiKey_wf id now (apiKey : InsertApiKey.t) (s : MemStorage) :
  wf_storage s -> wf_storage (fst (setApiKey id now apiKey s)).
Proof.
  intros (Hu & Hc & Hm & Ha). repeat split; try assumption; try apply Hm.
  - simpl. apply map_set_keys_NoDup.
    rewrite deactivate_all_spec by assumption.
    rewrite deactivate_pair_keys. apply Ha.
  - simpl. rewrite deactivate_all_spec by assumption.
    apply (keyed_by_set ApiKey.id); [reflexivity |].
    now apply keyed_by_deactivate.
Qed.

Lemma find_filter {A : Type} (p : A -> bool) (l : list A) :
  List.find p l = hd_error (filter p l).
Proof.
  induction l as [| x l IH]; simpl; [reflexivity |]. now destruct (p x).
Qed.

Lemma same_pair_true u p key :
  same_pair u p key = true <-> ApiKey.userId key = u /\ ApiKey.provider key = p.
Proof.
  unfold same_pair. rewrite andb_true_iff, !streq_true. tauto.
Qed.

(** The active keys of a pair after [setApiKey]: the new key alone for the
    pair that was set, and what they were for every other pair. *)
Lemma setApiKey_active id now (apiKey : InsertApiKey.t) (s : MemStorage) u p :
  wf_storage s ->
  map_get id (apiKeys s) = None ->
  active_keys u p (fst (setApiKey id now apiKey s))
  = if same_pair u p (snd (setApiKey id now apiKey s))
    then [snd (setApiKey id now apiKey s)]
    else active_keys u p s.
Proof.
  intros Hwf Hfresh. unfold active_keys.
  rewrite setApiKey_apiKeys by assumption.
  unfold map_values. rewrite map_app, filter_app, map_map. simpl.
  set (u0 := InsertApiKey.userId apiKey).
  set (p0 := InsertApiKey.provider apiKey).
  destruct (same_pair u p (ApiKey.mk id u0 p0 (InsertApiKey.keyValue apiKey)
                             true now)) eqn:Hsp; simpl.
  - apply same_pair_true in Hsp as [Hu Hp]. simpl in Hu, Hp. subst u p.
    rewrite filter_none; [reflexivity |].
    intros key Hin. apply in_map_iff in Hin as [e [<- _]].
    unfold deactivate_pair.
    destruct (same_pair u0 p0 (snd e)) eqn:E; simpl.
    + unfold same_pair in *. simpl. rewrite E. reflexivity.
    + now rewrite E.
  - rewrite app_nil_r. clear Hfresh Hwf.
    induction (apiKeys s) as [| [k key] l IH]; simpl; [reflexivity |].
    rewrite IH. unfold deactivate_pair. simpl.
    destruct (same_pair u0 p0 key) eqn:E; simpl; [| reflexivity].
    assert (same_pair u p key = false) as Hk.
    { apply not_true_is_false. intros Hk.
      apply same_pair_true in Hk as [<- <-].
      apply same_pair_true in E as [E1 E2].
      unfold same_pair in Hsp. simpl in Hsp.
      rewrite E1, E2, !streq_refl in Hsp. discriminate. }
    assert (same_pair u p (ApiKey.deactivate key) = false) as -> by exact Hk.
    now rewrite Hk.
Qed.

(** C2. In a store whose keys sit under their own ids, after [setApiKey]
    with a fresh identifier the new key is the one active key of its
    (userId, provider) pair and the one [getApiKey] returns, every key the
    pair had before is still stored under its id with [isActive] false, and
    a store with at most one active key per pair stays so; the resulting
    store satisfies the same conditions, so the same holds for a second
    call. *)
Theorem setApiKey_one_active (id : jsstring) (now : Z)
    (apiKey : InsertApiKey.t) (s : MemStorage) :
  wf_storage s ->
  map_get id (apiKeys s) = None ->
  let u := InsertApiKey.userId apiKey in
  let p := InsertApiKey.provider apiKey in
  let s' := fst (setApiKey id now apiKey s) in
  let newKey := snd (setApiKey id now apiKey s) in
  active_keys u p s' = [newKey]
  /\ ApiKey.isActive newKey = true
  /\ ApiKey.keyValue newKey = InsertApiKey.keyValue apiKey
  /\ getApiKey u p s' = Some newKey
  /\ (forall key,
        In key (map_values (apiKeys s)) -> same_pair u p key = true ->
        map_get (ApiKey.id key) (apiKeys s') = Some (ApiKey.deactivate key)
        /\ ApiKey.isActive (ApiKey.deactivate key) = false)
  /\ (at_most_one_active s -> at_most_one_active s')
  /\ wf_storage s'.
Proof.
  intros Hwf Hfresh u p s' newKey.
  assert (Hpair : same_pair u p newKey = true).
  { unfold same_pair, newKey. simpl. now rewrite !streq_refl. }
  assert (Hact : active_keys u p s' = [newKey]).
  { unfold s'. rewrite setApiKey_active by assumption.
    fold newKey. now rewrite Hpair. }
  split; [exact Hact |]. split; [reflexivity |]. split; [reflexivity |].
  split.
  { unfold getApiKey, js_find. rewrite find_filter.
    change (hd_error (active_keys u p s') = Some newKey). now rewrite Hact. }
  split.
  { intros key Hin Hsp. split; [| reflexivity].
    pose proof Hwf as (_ & _ & _ & Hnd & Hall).
    pose proof (setApiKey_wf id now apiKey s Hwf) as (_ & _ & _ & Hnd' & _).
    unfold map_values in Hin. apply in_map_iff in Hin as [[k v] [Hv Hin]].
    simpl in Hv. subst v.
    rewrite Forall_forall in Hall.
    pose proof (Hall _ Hin) as Hk. simpl in Hk. subst k.
    apply map_get_In; [exact Hnd' |].
    unfold s'. rewrite setApiKey_apiKeys by assumption.
    apply in_or_app. left. apply in_map_iff. exists (ApiKey.id key, key).
    split; [| assumption]. unfold deactivate_pair. simpl.
    fold u p. now rewrite Hsp. }
  split.
  { intros Hone u' p'. unfold s'. rewrite setApiKey_active by assumption.
    destruct (same_pair u' p' (snd (setApiKey id now apiKey s)));
      [simpl; lia | apply Hone]. }
  now apply setApiKey_wf.
Qed.

(** C10. The deactivation step of [setApiKey] changes nothing but
    [isActive]: with a fresh identifier, in a store whose keys sit under
    their own ids, every key stored before is still stored under its id with
    the same [id], [userId], [provider], [keyValue] and [createdAt]; a key
    of another (userId, provider) pair is the same record as before; the new
    key is the one entry added; and the users, conversations and messages
    are untouched. *)
Theorem setApiKey_frame (id : jsstring) (now : Z)
    (apiKey : InsertApiKey.t) (s : MemStorage) :
  wf_storage s ->
  map_get id (apiKeys s) = None ->
  let u := InsertApiKey.userId apiKey in
  let p := InsertApiKey.provider apiKey in
  let s' := fst (setApiKey id now apiKey s) in
  users s' = users s
  /\ conversations s' = conversations s
  /\ messages s' = messages s
  /\ apiKeys s'
     = map (deactivate_pair u p) (apiKeys s)
       ++ [(id, snd (setApiKey id now apiKey s))]
  /\ (forall key,
        In key (map_values (apiKeys s)) ->
        exists key',
          map_get (ApiKey.id key) (apiKeys s') = Some key'
          /\ ApiKey.id key' = ApiKey.id key
          /\ ApiKey.userId key' = ApiKey.userId key
          /\ ApiKey.provider key' = ApiKey.provider key
          /\ ApiKey.keyValue key' = ApiKey.keyValue key
          /\ ApiKey.createdAt key' = ApiKey.createdAt key
          /\ (same_pair u p key = false -> key' = key)).
Proof.
  intros Hwf Hfresh u p s'.
  assert (Hkeys : apiKeys s'
                  = map (deactivate_pair u p) (apiKeys s)
                    ++ [(id, snd (setApiKey id now apiKey s))])
    by now apply setApiKey_apiKeys.
  repeat split; try reflexivity; try exact Hkeys.
  intros key Hin.
  pose proof Hwf as (_ & _ & _ & Hnd & Hall).
  pose proof (setApiKey_wf id now apiKey s Hwf) as (_ & _ & _ & Hnd' & _).
  unfold map_values in Hin. apply in_map_iff in Hin as [[k v] [Hv Hin]].
  simpl in Hv. subst v.
  rewrite Forall_forall in Hall.
  pose proof (Hall _ Hin) as Hk. simpl in Hk. subst k.
  exists (snd (deactivate_pair u p (ApiKey.id key, key))).
  split.
  - apply map_get_In; [exact Hnd' |]. fold s'. rewrite Hkeys.
    apply in_or_app. left. apply in_map_iff. exists (ApiKey.id key, key).
    split; [| assumption].
    unfold deactivate_pair. simpl. now destruct (same_pair u p key).
  - unfold deactivate_pair. simpl.
    destruct (same_pair u p key); simpl; repeat split; congruence.
Qed.

(** ** The invariants on the sample store *)

Ltac distinct_keys :=
  repeat (constructor; [simpl; intuition discriminate |]); constructor.

Ltac wf_concrete :=
  repeat split; simpl; first [distinct_keys | repeat constructor].

Lemma wf_store1 : wf_storage Sample.store1.
Proof. wf_concrete. Defined.

Lemma setApiKey_one_active_witness :
  let first := setApiKey (lit "k1") 1 Sample.firstOpenAI empty_storage in
  let second := setApiKey (lit "k2") 2 Sample.newOpenAI (fst first) in
  active_keys mockUserId (lit "openai") (fst second) = [snd second]
  /\ map_get (lit "k1") (apiKeys (fst second))
     = Some (ApiKey.deactivate (snd first)).
Proof.
  cbv zeta.
  assert (Hwf : wf_storage
                  (fst (setApiKey (lit "k1") 1 Sample.firstOpenAI empty_storage)))
    by (vm_compute; wf_concrete).
  pose proof (setApiKey_one_active (lit "k2") 2 Sample.newOpenAI
                (fst (setApiKey (lit "k1") 1 Sample.firstOpenAI empty_storage))
                Hwf eq_refl) as (H1 & _ & _ & _ & H5 & _).
  split; [exact H1 |].
  apply (H5 (snd (setApiKey (lit "k1") 1 Sample.firstOpenAI empty_storage)));
    [simpl; tauto | reflexivity].
Defined.

Lemma setApiKey_frame_witness :
  map_get (lit "k2")
    (apiKeys (fst (setApiKey (lit "k3") 9 Sample.newOpenAI Sample.store1)))
  = Some Sample.keyOther
  /\ messages (fst (setApiKey (lit "k3") 9 Sample.newOpenAI Sample.store1))
     = messages Sample.store1.
Proof.
  pose proof (setApiKey_frame (lit "k3") 9 Sample.newOpenAI Sample.store1
                wf_store1 eq_refl) as (_ & _ & H3 & _ & H5).
  split; [| exact H3].
  destruct (H5 Sample.keyOther) as (key' & Hget & _ & _ & _ & _ & _ & Hsame);
    [simpl; tauto |].
  rewrite <- (Hsame eq_refl). exact Hget.
Defined.

Lemma deleteConversation_cascade_witness :
  getMessagesByConversationId (lit "c1")
    (fst (deleteConversation (lit "c1") Sample.store1)) = []
  /\ snd (deleteConversation (lit "c1") Sample.store1) = true
  /\ snd (deleteConversation (lit "c1")
            (fst (deleteConversation (lit "c1") Sample.store1))) = false.
Proof.
  pose proof (deleteConversation_cascade (lit "c1") Sample.store1 wf_store1)
    as (_ & _ & H3 & _ & H5 & H6 & _).
  split; [exact H5 |]. split; [| exact H6].
  apply H3. exists Sample.conv1. reflexivity.
Defined.

(** ** Running a promise *)

Lemma run_io_bind {A B : Type} (up : Upstream) (m : IO A) (f : A -> IO B) :
  run up (io_bind m f) = run up (f (run up m)).
Proof. induction m as [a | c k IH]; simpl; [reflexivity | apply IH]. Qed.

Lemma calls_io_bind {A B : Type} (up : Upstream) (m : IO A) (f : A -> IO B) :
  calls up (io_bind m f) = calls up m ++ calls up (f (run up m)).
Proof.
  induction m as [a | c k IH]; simpl; [reflexivity | now rewrite IH].
Qed.

Lemma run_async_bind {A B : Type} (up : Upstream) (m : Async A)
    (f : A -> Async B) :
  run up (async_bind m f)
  = match run up m with
    | Ok a => run up (f a)
    | Err e => Err e
    end.
Proof.
  unfold async_bind. rewrite run_io_bind. now destruct (run up m).
Qed.

Lemma run_await (up : Upstream) (c : Outbound) : run up (await c) = up c.
Proof. reflexivity. Qed.

Lemma AIProvider_parse_name (p : AIProviderType) :
  AIProvider_parse (provider_name p) = Some p.
Proof. destruct p; reflexivity. Qed.

Lemma AIProvider_parse_Some (s : jsstring) (p : AIProviderType) :
  AIProvider_parse s = Some p -> s = provider_name p.
Proof.
  unfold AIProvider_parse. intros H. apply find_some in H as [_ H].
  now apply streq_true in H.
Qed.

(** ** The reply of [sendMessage] *)

(** Whatever the adapter of a provider resolves with carries the model it
    was given and the name of the provider. *)
Lemma adapter_reply_fields (up : Upstream) (p : AIProviderType)
    (apiKey : jsstring) (messages : list ChatTurn.t) (m : jsstring)
    (reply : AIResponse.t) :
  run up
    (match p with
     | openai => sendOpenAIMessage apiKey messages m
     | anthropic => sendAnthropicMessage apiKey messages m
     | google => sendGoogleMessage apiKey messages m
     | huggingface => sendHuggingFaceMessage apiKey messages m
     | cerebras => sendCerebrasMessage apiKey messages m
     | sambanova => sendSambanovaMessage apiKey messages m
     | mistral => sendMistralMessage apiKey messages m
     | cohere => sendCohereMessage apiKey messages m
     | xai => sendXAIMessage apiKey messages m
     | perplexity => sendPerplexityMessage apiKey messages m
     | together => sendTogetherMessage apiKey messages m
     | fireworks => sendFireworksMessage apiKey messages m
     end) = Ok reply ->
  AIResponse.provider reply = provider_name p /\ AIResponse.model reply = m.
Proof.
  destruct p;
    unfold sendOpenAIMessage, sendAnthropicMessage, sendGoogleMessage,
      sendHuggingFaceMessage, sendCerebrasMessage, sendSambanovaMessage,
      sendMistralMessage, sendCohereMessage, sendXAIMessage,
      sendPerplexityMessage, sendTogetherMessage, sendFireworksMessage,
      sendOpenAICompatible;
    cbv zeta;
    try (destruct (last_message messages); [| discriminate]);
    rewrite !run_async_bind, run_await;
    match goal with |- context [up ?c] => destruct (up c) as [resp | e] end;
    try discriminate;
    try (rewrite run_async_bind;
         destruct (OpenAI.choices resp); simpl; [discriminate |]);
    simpl; intros [= <-]; split; reflexivity.
Qed.

(** When the upstream answers, the adapter of every provider resolves, the
    one of Cohere provided the history has a last turn. *)
Lemma adapter_resolves (up : Upstream) (p : AIProviderType)
    (apiKey : jsstring) (messages : list ChatTurn.t) (m : jsstring) :
  answers up -> messages <> [] ->
  exists reply,
    run up
      (match p with
       | openai => sendOpenAIMessage apiKey messages m
       | anthropic => sendAnthropicMessage apiKey messages m
       | google => sendGoogleMessage apiKey messages m
       | huggingface => sendHuggingFaceMessage apiKey messages m
       | cerebras => sendCerebrasMessage apiKey messages m
       | sambanova => sendSambanovaMessage apiKey messages m
       | mistral => sendMistralMessage apiKey messages m
       | cohere => sendCohereMessage apiKey messages m
       | xai => sendXAIMessage apiKey messages m
       | perplexity => sendPerplexityMessage apiKey messages m
       | together => sendTogetherMessage apiKey messages m
       | fireworks => sendFireworksMessage apiKey messages m
       end) = Ok reply.
Proof.
  intros Hans Hne.
  assert (Hlast : exists t, last_message messages = Some t).
  { unfold last_message. clear Hans.
    induction messages as [| a l IH]; [congruence |].
    destruct l as [| b l]; [now exists a |].
    destruct IH as [t Ht]; [discriminate |]. exists t. exact Ht. }
  destruct p;
    unfold sendOpenAIMessage, sendAnthropicMessage, sendGoogleMessage,
      sendHuggingFaceMessage, sendCerebrasMessage, sendSambanovaMessage,
      sendMistralMessage, sendCohereMessage, sendXAIMessage,
      sendPerplexityMessage, sendTogetherMessage, sendFireworksMessage,
      sendOpenAICompatible;
    cbv zeta;
    try (destruct Hlast as [t ->]);
    rewrite !run_async_bind, run_await;
    match goal with
    | |- context [up ?c] => pose proof (Hans c) as Hc; cbv beta iota in Hc
    end;
    destruct Hc as [resp Hc];
    match type of Hc with
    | _ /\ _ => destruct Hc as [Hc Hch]
    | _ => idtac
    end;
    rewrite Hc;
    try (rewrite run_async_bind;
         destruct (OpenAI.choices resp); [congruence |]);
    simpl; eexists; reflexivity.
Qed.

(** C1, as the code has it. For every supported provider, every history and
    every upstream: whenever [sendMessage] resolves, the reply names the
    input provider, and its model is the explicit model when one is given
    and is not the empty string, and the provider's entry of
    [DEFAULT_MODELS] when the model is omitted or empty; and [sendMessage]
    does resolve whenever the upstream answers the call and the history is
    not empty. *)
Theorem sendMessage_reply_fields (up : Upstream) (p : AIProviderType)
    (apiKey : jsstring) (messages : list ChatTurn.t) (model : option jsstring) :
  (forall reply,
      run up (sendMessage (provider_name p) apiKey messages model) = Ok reply ->
      AIResponse.provider reply = provider_name p
      /\ (forall m, model = Some m -> m <> [] -> AIResponse.model reply = m)
      /\ (model = None \/ model = Some [] ->
          AIResponse.model reply = DEFAULT_MODELS p))
  /\ (answers up -> messages <> [] ->
      exists reply,
        run up (sendMessage (provider_name p) apiKey messages model) = Ok reply).
Proof.
  unfold sendMessage. rewrite AIProvider_parse_name. cbv zeta. split.
  - intros reply H.
    apply (adapter_reply_fields up p) in H as [Hp Hm].
    split; [exact Hp |]. split.
    + intros m -> Hne. rewrite Hm. destruct m; [congruence | reflexivity].
    + intros [-> | ->]; rewrite Hm; reflexivity.
  - intros Hans Hne. now apply adapter_resolves.
Qed.

Lemma answers_up_ok : answers Sample.up_ok.
Proof.
  intros c. destruct c; simpl; eexists; try split; try reflexivity.
  simpl. discriminate.
Defined.

Lemma sendMessage_reply_fields_witness :
  exists reply,
    run Sample.up_ok
      (sendMessage (provider_name cohere) (lit "sk-test") [Sample.turn1] None)
    = Ok reply
    /\ AIResponse.provider reply = lit "cohere"
    /\ AIResponse.model reply = lit "command-r-plus".
Proof.
  destruct (sendMessage_reply_fields Sample.up_ok cohere (lit "sk-test")
              [Sample.turn1] None) as [Hfields Hresolves].
  destruct (Hresolves answers_up_ok ltac:(discriminate)) as [reply Hrun].
  exists reply. split; [exact Hrun |].
  destruct (Hfields reply Hrun) as (Hp & _ & Hm).
  split; [exact Hp | apply Hm; now left].
Defined.

(** C1 as stated fails on an explicit model that is the empty string:
    [model || DEFAULT_MODELS[provider]] takes the default then. *)
Lemma sendMessage_empty_model_counterexample :
  exists reply,
    run Sample.up_ok
      (sendMessage (provider_name openai) (lit "sk-test") [Sample.turn1]
         (Some []))
    = Ok reply
    /\ AIResponse.model reply = lit "gpt-4o"
    /\ AIResponse.model reply <> [].
Proof.
  eexists. split; [reflexivity |]. split; [reflexivity | discriminate].
Qed.

(** ** Histories that differ in their images only *)

Lemma map_turn_text_ext {B : Type} (f : ChatTurn.t -> B)
    (g : Role * jsstring -> B) (h1 h2 : list ChatTurn.t) :
  (forall msg, f msg = g (turn_text msg)) ->
  map turn_text h1 = map turn_text h2 ->
  map f h1 = map f h2.
Proof.
  intros Hfg Heq.
  rewrite (map_ext f (fun msg => g (turn_text msg)) Hfg h1).
  rewrite (map_ext f (fun msg => g (turn_text msg)) Hfg h2).
  rewrite <- !(map_map turn_text g). now rewrite Heq.
Qed.

Lemma removelast_map {A B : Type} (f : A -> B) (l : list A) :
  map f (removelast l) = removelast (map f l).
Proof.
  induction l as [| a l IH]; [reflexivity |].
  destruct l as [| b l]; [reflexivity |].
  change (f a :: map f (removelast (b :: l))
          = f a :: removelast (map f (b :: l))).
  now rewrite IH.
Qed.

Lemma last_message_text (h : list ChatTurn.t) :
  option_map turn_text (last_message h)
  = List.last (map Some (map turn_text h)) None.
Proof.
  unfold last_message.
  induction h as [| a l IH]; [reflexivity |].
  destruct l as [| b l]; [reflexivity |]. exact IH.
Qed.

Lemma openai_compatible_text baseURL name apiKey h1 h2 m :
  map turn_text h1 = map turn_text h2 ->
  sendOpenAICompatible baseURL name apiKey h1 m
  = sendOpenAICompatible baseURL name apiKey h2 m.
Proof.
  intros Heq. unfold sendOpenAICompatible.
  rewrite (map_turn_text_ext _
             (fun t => OpenAI.mkMessage (fst t) (OpenAI.plain (snd t)))
             h1 h2); [reflexivity | reflexivity | exact Heq].
Qed.

Lemma mistral_text apiKey h1 h2 m :
  map turn_text h1 = map turn_text h2 ->
  sendMistralMessage apiKey h1 m = sendMistralMessage apiKey h2 m.
Proof.
  intros Heq. unfold sendMistralMessage.
  rewrite (map_turn_text_ext _
             (fun t => MistralSDK.mkMessage (fst t) (snd t))
             h1 h2); [reflexivity | reflexivity | exact Heq].
Qed.

Lemma huggingface_text apiKey h1 h2 m :
  map turn_text h1 = map turn_text h2 ->
  sendHuggingFaceMessage apiKey h1 m = sendHuggingFaceMessage apiKey h2 m.
Proof.
  intros Heq. unfold sendHuggingFaceMessage.
  rewrite (map_turn_text_ext _
             (fun t => match fst t with
                       | user => lit "Human: " ++ snd t
                       | assistant => lit "Assistant: " ++ snd t
                       end)
             h1 h2); [reflexivity | reflexivity | exact Heq].
Qed.

Lemma cohere_text apiKey h1 h2 m :
  map turn_text h1 = map turn_text h2 ->
  sendCohereMessage apiKey h1 m = sendCohereMessage apiKey h2 m.
Proof.
  intros Heq. unfold sendCohereMessage. cbv zeta.
  assert (Hhist :
            map (fun msg =>
                   CohereSDK.mkTurn
                     (match ChatTurn.role msg with
                      | user => CohereSDK.USER
                      | assistant => CohereSDK.CHATBOT
                      end) (ChatTurn.content msg)) (removelast h1)
            = map (fun msg =>
                     CohereSDK.mkTurn
                       (match ChatTurn.role msg with
                        | user => CohereSDK.USER
                        | assistant => CohereSDK.CHATBOT
                        end) (ChatTurn.content msg)) (removelast h2)).
  { apply (map_turn_text_ext _
             (fun t => CohereSDK.mkTurn
                         (match fst t with
                          | user => CohereSDK.USER
                          | assistant => CohereSDK.CHATBOT
                          end) (snd t))); [reflexivity |].
    now rewrite !removelast_map, Heq. }
  rewrite Hhist.
  pose proof (last_message_text h1) as H1.
  pose proof (last_message_text h2) as H2.
  rewrite Heq, <- H2 in H1.
  destruct (last_message h1) as [t1 |], (last_message h2) as [t2 |];
    simpl in H1; try discriminate; [| reflexivity].
  injection H1 as Hr Hc. now rewrite Hc.
Qed.

(** C9. For each provider without image support, two histories with the
    same roles and contents, whatever their images, give the same
    computation: the same outbound request, and under every upstream the
    same calls and the same outcome. A turn that carries images is
    therefore sent, and answered or refused, as the same turn without
    them. *)
Theorem no_image_support_ignores_images (p : AIProviderType)
    (apiKey : jsstring) (h1 h2 : list ChatTurn.t) (model : option jsstring) :
  In p without_image_support ->
  map turn_text h1 = map turn_text h2 ->
  sendMessage (provider_name p) apiKey h1 model
  = sendMessage (provider_name p) apiKey h2 model
  /\ (forall up : Upstream,
        calls up (sendMessage (provider_name p) apiKey h1 model)
        = calls up (sendMessage (provider_name p) apiKey h2 model)
        /\ run up (sendMessage (provider_name p) apiKey h1 model)
           = run up (sendMessage (provider_name p) apiKey h2 model)).
Proof.
  intros Hin Heq.
  assert (E : sendMessage (provider_name p) apiKey h1 model
              = sendMessage (provider_name p) apiKey h2 model).
  { unfold sendMessage. rewrite AIProvider_parse_name. cbv zeta.
    destruct p;
      try (exfalso; simpl in Hin; intuition discriminate);
      first [ now apply openai_compatible_text
            | now apply mistral_text
            | now apply huggingface_text
            | now apply cohere_text ]. }
  split; [exact E |]. intros up. now rewrite E.
Qed.

Lemma no_image_support_ignores_images_witness :
  calls Sample.up_ok
    (sendMessage (provider_name cerebras) (lit "sk-test") [Sample.turn1_img] None)
  = calls Sample.up_ok
      (sendMessage (provider_name cerebras) (lit "sk-test") [Sample.turn1] None)
  /\ run Sample.up_ok
       (sendMessage (provider_name cerebras) (lit "sk-test") [Sample.turn1_img]
          None)
     = run Sample.up_ok
         (sendMessage (provider_name cerebras) (lit "sk-test") [Sample.turn1]
            None).
Proof.
  apply (no_image_support_ignores_images cerebras (lit "sk-test")
           [Sample.turn1_img] [Sample.turn1] None).
  - simpl. tauto.
  - reflexivity.
Defined.

(** ** Sending a message through the route *)

(** C3, as the code has it. When the conversation exists and belongs to the
    user, the body is a valid chat message and the user has no active key
    for the conversation's provider, the request ends with status 400 and
    the provider-not-configured error, without any outbound call, and the
    store is what it was: neither the user message nor an assistant message
    is created. *)
Theorem post_messages_without_key (uuid1 uuid2 : jsstring)
    (now1 now2 now3 now4 : Z) (id : jsstring) (req_body : JSON)
    (s : MemStorage) (conversation : Conversation.t)
    (messageData : ChatMessage.t) :
  owned (getConversation id s) = Some conversation ->
  ChatMessageSchema_parse req_body = Some messageData ->
  getApiKey mockUserId (Conversation.provider conversation) s = None ->
  post_messages uuid1 uuid2 now1 now2 now3 now4 id req_body s
  = Ret (s, mkResponse 400
              (error_body (lit "API key not configured for "
                           ++ Conversation.provider conversation)))
  /\ (forall up : Upstream,
        calls up (post_messages uuid1 uuid2 now1 now2 now3 now4 id req_body s)
        = []
        /\ messages
             (fst (run up
                     (post_messages uuid1 uuid2 now1 now2 now3 now4 id
                        req_body s)))
           = messages s).
Proof.
  intros Hown Hbody Hkey.
  assert (E : post_messages uuid1 uuid2 now1 now2 now3 now4 id req_body s
              = Ret (s, mkResponse 400
                          (error_body (lit "API key not configured for "
                                       ++ Conversation.provider conversation)))).
  { unfold post_messages. now rewrite Hown, Hbody, Hkey. }
  split; [exact E |]. intros up. rewrite E. split; reflexivity.
Qed.

Lemma post_messages_without_key_witness :
  post_messages (lit "u1") (lit "u2") 1 2 3 4 (lit "c1") Sample.hello
    Sample.store_no_key
  = Ret (Sample.store_no_key,
         mkResponse 400 (error_body (lit "API key not configured for openai"))).
Proof.
  apply (post_messages_without_key (lit "u1") (lit "u2") 1 2 3 4 (lit "c1")
           Sample.hello Sample.store_no_key Sample.conv1
           (ChatMessage.mk (lit "Hello") None None));
    reflexivity.
Defined.

(** C3 as stated fails: with no key configured the request is refused
    before the user message is saved, so no user message is in the store
    afterwards. *)
Lemma no_key_user_message_counterexample :
  let after :=
    fst (run Sample.up_ok
           (post_messages (lit "u1") (lit "u2") 1 2 3 4 (lit "c1") Sample.hello
              Sample.store_no_key)) in
  getApiKey mockUserId (lit "openai") Sample.store_no_key = None
  /\ status (snd (run Sample.up_ok
                    (post_messages (lit "u1") (lit "u2") 1 2 3 4 (lit "c1")
                       Sample.hello Sample.store_no_key))) = 400
  /\ ~ (exists msg, In msg (map_values (messages after))
                    /\ Message.role msg = user).
Proof.
  cbv zeta. split; [reflexivity |]. split; [reflexivity |].
  intros [msg [[] _]].
Qed.

(** C4. When the conversation, the body and the key are in order and the
    adapter call fails, under whatever upstream, the request ends with
    status 500 in the store as [createMessage] left it for the user
    message: that message is stored, every assistant message of the store
    was there before, and the conversations, [updatedAt] included, the
    users and the keys are untouched. *)
Theorem post_messages_provider_failure (up : Upstream) (uuid1 uuid2 : jsstring)
    (now1 now2 now3 now4 : Z) (id : jsstring) (req_body : JSON)
    (s : MemStorage) (conversation : Conversation.t)
    (messageData : ChatMessage.t) (apiKey : ApiKey.t) (e : Error) :
  owned (getConversation id s) = Some conversation ->
  ChatMessageSchema_parse req_body = Some messageData ->
  getApiKey mockUserId (Conversation.provider conversation) s = Some apiKey ->
  let saved :=
    createMessage uuid1 now1
      (InsertMessage.mk id user (ChatMessage.content messageData)
         (match ChatMessage.images messageData with
          | Some images => Some (MetaImages images)
          | None => None
          end)) s in
  let chatHistory :=
    map (fun msg => ChatTurn.mk (Message.role msg) (Message.content msg)
                      (metadata_images (Message.metadata msg)))
      (getMessagesByConversationId id (fst saved)) in
  run up (sendMessage (Conversation.provider conversation)
            (ApiKey.keyValue apiKey) chatHistory
            (Some (Conversation.model conversation))) = Err e ->
  let after :=
    run up (post_messages uuid1 uuid2 now1 now2 now3 now4 id req_body s) in
  after = (fst saved, fail 500 "Failed to send message")
  /\ map_get uuid1 (messages (fst after)) = Some (snd saved)
  /\ Message.role (snd saved) = user
  /\ Message.content (snd saved) = ChatMessage.content messageData
  /\ Message.conversationId (snd saved) = id
  /\ messages (fst after) = map_set uuid1 (snd saved) (messages s)
  /\ (forall k msg,
        map_get k (messages (fst after)) = Some msg ->
        Message.role msg = assistant ->
        map_get k (messages s) = Some msg)
  /\ conversations (fst after) = conversations s
  /\ getConversation id (fst after) = getConversation id s
  /\ users (fst after) = users s
  /\ apiKeys (fst after) = apiKeys s.
Proof.
  intros Hown Hbody Hkey saved chatHistory Hfail after.
  assert (E : after = (fst saved, fail 500 "Failed to send message")).
  { unfold after, post_messages. rewrite Hown, Hbody, Hkey.
    change (createMessage uuid1 now1 _ s) with saved.
    destruct saved as [s1 userMessage] eqn:Hs. simpl fst in *.
    rewrite run_io_bind. fold chatHistory. rewrite Hfail. reflexivity. }
  rewrite E. simpl fst.
  repeat split; try reflexivity.
  - simpl. apply map_get_set_same.
  - intros k msg Hget Hrole. simpl in Hget. simpl.
    destruct (str_eq_dec k uuid1) as [-> | Hne].
    + rewrite map_get_set_same in Hget. injection Hget as <-.
      simpl in Hrole. discriminate.
    + now rewrite map_get_set_other in Hget.
Qed.

Lemma post_messages_provider_failure_witness :
  run Sample.up_down
    (post_messages (lit "u1") (lit "u2") 1 2 3 4 (lit "c1") Sample.hello
       Sample.store1)
  = (fst (createMessage (lit "u1") 1
            (InsertMessage.mk (lit "c1") user (lit "Hello") None)
            Sample.store1),
     fail 500 "Failed to send message").
Proof.
  apply (post_messages_provider_failure Sample.up_down (lit "u1") (lit "u2")
           1 2 3 4 (lit "c1") Sample.hello Sample.store1 Sample.conv1
           (ChatMessage.mk (lit "Hello") None None) Sample.keyOld
           (UpstreamError (lit "401 Incorrect API key provided")));
    reflexivity.
Defined.

(** ** Masked keys *)

Lemma sanitize_keyValue (key : ApiKey.t) :
  ApiKey.keyValue (sanitize key)
  = firstn 8 (ApiKey.keyValue key) ++ repeat 8226%N 40.
Proof. unfold sanitize. simpl. now rewrite substring_prefix. Qed.

Lemma sanitize_same_visible (k1 k2 : ApiKey.t) :
  same_visible k1 k2 -> sanitize k1 = sanitize k2.
Proof.
  intros (Hid & Hu & Hp & Ha & Hc & Hv).
  unfold sanitize, ApiKey.with_keyValue. rewrite !substring_prefix.
  now rewrite Hid, Hu, Hp, Ha, Hc, Hv.
Qed.

Lemma sanitized_same_visible (u : jsstring) (l1 l2 : list ApiKey.t) :
  Forall2 same_visible l1 l2 ->
  map sanitize (filter (fun key => streq (ApiKey.userId key) u) l1)
  = map sanitize (filter (fun key => streq (ApiKey.userId key) u) l2).
Proof.
  induction 1 as [| k1 k2 l1 l2 Hk _ IH]; simpl; [reflexivity |].
  pose proof (sanitize_same_visible k1 k2 Hk) as Hs.
  destruct Hk as (_ & -> & _).
  destruct (streq (ApiKey.userId k2) u); simpl; [| exact IH].
  now rewrite Hs, IH.
Qed.

(** C6. The response of [GET /api/api-keys] lists the keys of the user, each
    with its [keyValue] replaced by its first eight code units (all of them
    when it has fewer) followed by forty bullets, and with its other fields
    as stored; and a store whose keys differ from those of [s] only in what
    follows the first eight code units of their secrets gets the same
    response. *)
Theorem get_api_keys_masked (s s2 : MemStorage) :
  Forall2 same_visible (map_values (apiKeys s)) (map_values (apiKeys s2)) ->
  (exists shown,
      get_api_keys s = (s, mkResponse 200 (api_keys_body shown))
      /\ Forall2
           (fun key out =>
              ApiKey.keyValue out
              = firstn 8 (ApiKey.keyValue key) ++ repeat 8226%N 40
              /\ ApiKey.id out = ApiKey.id key
              /\ ApiKey.userId out = ApiKey.userId key
              /\ ApiKey.provider out = ApiKey.provider key
              /\ ApiKey.isActive out = ApiKey.isActive key
              /\ ApiKey.createdAt out = ApiKey.createdAt key)
           (getApiKeysByUserId mockUserId s) shown)
  /\ snd (get_api_keys s2) = snd (get_api_keys s).
Proof.
  intros Hsame. split.
  - exists (map sanitize (getApiKeysByUserId mockUserId s)).
    split; [reflexivity |].
    induction (getApiKeysByUserId mockUserId s) as [| key l IH]; simpl;
      constructor; [| exact IH].
    split; [apply sanitize_keyValue | repeat split].
  - unfold get_api_keys, getApiKeysByUserId. simpl.
    now rewrite (sanitized_same_visible mockUserId _ _ Hsame).
Qed.

Lemma get_api_keys_masked_witness :
  snd (get_api_keys Sample.store1') = snd (get_api_keys Sample.store1).
Proof.
  apply (get_api_keys_masked Sample.store1 Sample.store1').
  repeat constructor.
Defined.

(** The response of [POST /api/api-keys] masks the new key the same way. *)
Lemma post_api_keys_masked (uuid : jsstring) (now : Z) (req_body : JSON)
    (s s' : MemStorage) (k : ApiKey.t) :
  post_api_keys uuid now req_body s = (s', json (api_key_body k)) ->
  exists validatedData,
    insertApiKeySchema_parse
      (spread_with req_body (lit "userId") (JStr mockUserId))
    = Some validatedData
    /\ ApiKey.keyValue k
       = firstn 8 (InsertApiKey.keyValue validatedData) ++ repeat 8226%N 40.
Proof.
  unfold post_api_keys.
  destruct (insertApiKeySchema_parse _) as [validatedData |]; [| discriminate].
  simpl. intros [= _ <-]. exists validatedData. split; [reflexivity |].
  apply sanitize_keyValue.
Qed.

(** ** Providers outside the enumeration *)

(** [DELETE /api/api-keys/:provider] parses the provider with [AIProvider]
    and refuses an unsupported one before it touches the store. *)
Lemma delete_api_key_rejects_unsupported (provider : jsstring) (s : MemStorage) :
  AIProvider_parse provider = None ->
  delete_api_key provider s = (s, fail 400 "Invalid provider").
Proof. intros H. unfold delete_api_key. now rewrite H. Qed.

(** C5 on the code. [POST /api/conversations] and [POST /api/api-keys]
    accept a provider outside the enumeration: the schemas type [provider]
    as a string. Each answers 200 and stores the record; a message sent to
    such a conversation is then saved before [sendMessage] refuses the
    provider, and the request ends with status 500 in a changed store. *)
Theorem unsupported_provider_reaches_store :
  AIProvider_parse (lit "bogus") = None
  /\ (let r := post_conversations (lit "c9") 7 Sample.bogus_conversation
                 empty_storage in
      status (snd r) = 200
      /\ option_map Conversation.provider (getConversation (lit "c9") (fst r))
         = Some (lit "bogus")
      /\ fst r <> empty_storage)
  /\ (let r := post_api_keys (lit "k9") 8 Sample.bogus_key empty_storage in
      status (snd r) = 200
      /\ option_map ApiKey.provider (getApiKey mockUserId (lit "bogus") (fst r))
         = Some (lit "bogus")
      /\ fst r <> empty_storage)
  /\ (let s0 :=
        fst (post_api_keys (lit "k9") 8 Sample.bogus_key
               (fst (post_conversations (lit "c9") 7 Sample.bogus_conversation
                       empty_storage))) in
      let r := run Sample.up_ok
                 (post_messages (lit "u1") (lit "u2") 1 2 3 4 (lit "c9")
                    Sample.hello s0) in
      status (snd r) = 500
      /\ map_values (messages s0) = []
      /\ map (fun msg => (Message.role msg, Message.content msg))
           (map_values (messages (fst r)))
         = [(user, lit "Hello")]).
Proof.
  cbv zeta. repeat split; try reflexivity; discriminate.
Qed.

(** ** The invariants hold in every reachable store *)

Lemma active_keys_same_apiKeys (s s' : MemStorage) :
  apiKeys s' = apiKeys s ->
  at_most_one_active s -> at_most_one_active s'.
Proof.
  intros E H u p. unfold active_keys. rewrite E. apply H.
Qed.

Lemma filter_values_filter_le {V : Type} (p : V -> bool)
    (q : jsstring * V -> bool) (m : JSMap V) :
  (List.length (filter p (map_values (filter q m)))
   <= List.length (filter p (map_values m)))%nat.
Proof.
  induction m as [| e m IH]; simpl; [lia |].
  destruct (q e); simpl; destruct (p (snd e)); simpl; lia.
Qed.

Lemma store_step_wf (s s' : MemStorage) :
  store_step s s' -> wf_storage s -> wf_storage s'.
Proof.
  intros Hstep Hwf. pose proof Hwf as (Hu & Hc & Hm & Ha).
  destruct Hstep.
  - repeat split; try assumption; try apply Hm; try apply Ha.
    now apply map_set_keys_NoDup.
  - repeat split; try assumption; try apply Hm; try apply Ha.
    now apply map_set_keys_NoDup.
  - unfold updateConversation.
    destruct (map_get id (conversations s)); simpl; [| exact Hwf].
    repeat split; try assumption; try apply Hm; try apply Ha.
    now apply map_set_keys_NoDup.
  - change (fst (deleteConversation id s))
      with (set_conversations (map_remove id (conversations s))
              (fst (deleteMessagesByConversationId id s))).
    rewrite deleteMessages_spec by assumption.
    repeat split; simpl; try assumption; try apply Ha.
    + rewrite map_remove_filter by assumption. now apply filter_keys_NoDup.
    + apply filter_keys_NoDup, Hm.
    + apply (keyed_by_filter Message.id), Hm.
  - repeat split; try assumption; try apply Ha;
      apply (keyed_by_set Message.id); trivial.
  - rewrite deleteMessages_spec by assumption.
    repeat split; simpl; try assumption; try apply Ha.
    + apply filter_keys_NoDup, Hm.
    + apply (keyed_by_filter Message.id), Hm.
  - now apply setApiKey_wf.
  - unfold deleteApiKey.
    destruct (getApiKey userId provider s); simpl; [| exact Hwf].
    repeat split; try assumption; try apply Hm;
      now apply (keyed_by_remove ApiKey.id).
Qed.

Lemma store_step_one_active (s s' : MemStorage) :
  store_step s s' -> wf_storage s ->
  at_most_one_active s -> at_most_one_active s'.
Proof.
  intros Hstep Hwf Hone.
  destruct Hstep; try (now apply (active_keys_same_apiKeys s)).
  - apply (active_keys_same_apiKeys s); [| assumption].
    unfold updateConversation. now destruct (map_get id (conversations s)).
  - intros u p. rewrite setApiKey_active by assumption.
    destruct (same_pair u p (snd (setApiKey id now apiKey s)));
      [simpl; lia | apply Hone].
  - unfold deleteApiKey.
    destruct (getApiKey userId provider s) as [key |]; simpl; [| exact Hone].
    intros u p. unfold active_keys. simpl.
    rewrite map_remove_filter by apply Hwf.
    etransitivity; [apply filter_values_filter_le | apply Hone].
Qed.

(** From start-up on, every map of the store lists a key once, messages and
    API keys sit under their own ids, and no (userId, provider) pair has two
    active keys. *)
Lemma reachable_invariants (s : MemStorage) :
  reachable s -> wf_storage s /\ at_most_one_active s.
Proof.
  induction 1 as [| s s' _ [Hwf Hone] Hstep].
  - split; [apply wf_empty |]. intros u p. simpl. lia.
  - split; [now apply (store_step_wf s) | now apply (store_step_one_active s)].
Qed.

(* ================================================================= *)
(** * Further properties of the store *)

Lemma js_sort_ext {A : Type} (cmp1 cmp2 : A -> A -> Z) (l : list A) :
  (forall a b, cmp1 a b = cmp2 a b) -> js_sort cmp1 l = js_sort cmp2 l.
Proof.
  intros H. induction l as [| x l IH]; simpl; [reflexivity |].
  rewrite IH. generalize (js_sort cmp2 l). intros l'.
  induction l' as [| y l' IH']; simpl; [reflexivity |].
  now rewrite H, IH'.
Qed.

Lemma StronglySorted_weaken {A : Type} (R1 R2 : A -> A -> Prop) (l : list A) :
  (forall a b, R1 a b -> R2 a b) -> StronglySorted R1 l -> StronglySorted R2 l.
Proof.
  intros H. induction 1 as [| a l Hs IH Hall]; constructor; [assumption |].
  eapply Forall_impl; [| exact Hall]. auto.
Qed.

Lemma opt_streq_true (a : option jsstring) (b : jsstring) :
  opt_streq a b = true <-> a = Some b.
Proof.
  destruct a as [a' |]; simpl; [| split; discriminate].
  rewrite streq_true. split; congruence.
Qed.

(** X1. [getConversationsByUserId] returns the stored conversations whose
    [userId] is the given user, each as often as it is stored and no other
    (a conversation without owner is listed for nobody), most recently
    updated first. *)
Theorem getConversationsByUserId_sorted_exact (userId : jsstring)
    (s : MemStorage) :
  let result := getConversationsByUserId userId s in
  StronglySorted
    (fun a b => Conversation.updatedAt b <= Conversation.updatedAt a) result
  /\ Permutation result
       (filter (fun conv => opt_streq (Conversation.userId conv) userId)
          (map_values (conversations s)))
  /\ (forall conv,
        In conv result <->
        In conv (map_values (conversations s))
        /\ Conversation.userId conv = Some userId).
Proof.
  unfold getConversationsByUserId. cbv zeta.
  set (l := filter _ _).
  assert (E : js_sort
                (fun a b => Conversation.updatedAt b - Conversation.updatedAt a) l
              = js_sort
                  (fun a b => (fun c => - Conversation.updatedAt c) a
                              - (fun c => - Conversation.updatedAt c) b) l)
    by (apply js_sort_ext; intros; lia).
  rewrite E. split.
  - eapply StronglySorted_weaken;
      [| apply (js_sort_sorted (fun c => - Conversation.updatedAt c))].
    simpl. intros; lia.
  - pose proof (js_sort_perm (fun c => - Conversation.updatedAt c) l) as P.
    split; [exact P |]. intros conv. split.
    + intros Hin. apply (Permutation_in _ P) in Hin.
      apply filter_In in Hin as [Hin Hu]. now apply opt_streq_true in Hu.
    + intros [Hin Hu]. apply (Permutation_in _ (Permutation_sym P)).
      apply filter_In. split; [assumption | now apply opt_streq_true].
Qed.

(** X2. After [createConversation] the new conversation is what
    [getConversation] returns for its id: it carries the given title,
    provider and model, [createdAt] and [updatedAt] are both the clock
    reading, and an empty [userId] is stored as no owner. Every other id
    looks up what it did, and users, messages and keys are untouched. *)
Theorem createConversation_lookup (id : jsstring) (now : Z)
    (conversation : InsertConversation.t) (s : MemStorage) :
  let s' := fst (createConversation id now conversation s) in
  let conv := snd (createConversation id now conversation s) in
  getConversation id s' = Some conv
  /\ Conversation.id conv = id
  /\ Conversation.title conv = InsertConversation.title conversation
  /\ Conversation.provider conv = InsertConversation.provider conversation
  /\ Conversation.model conv = InsertConversation.model conversation
  /\ Conversation.createdAt conv = now
  /\ Conversation.updatedAt conv = now
  /\ Conversation.userId conv
     = match InsertConversation.userId conversation with
       | Some [] | None => None
       | Some u => Some u
       end
  /\ (forall k, k <> id -> getConversation k s' = getConversation k s)
  /\ users s' = users s /\ messages s' = messages s /\ apiKeys s' = apiKeys s.
Proof.
  cbv zeta. unfold getConversation. simpl.
  repeat split.
  - apply map_get_set_same.
  - now destruct (InsertConversation.userId conversation) as [[| ? ?] |].
  - intros k Hk. now apply map_get_set_other.
Qed.


Lemma sort_insert_snoc {A : Type} (cmp : A -> A -> Z) (a x : A) (l : list A) :
  cmp a x <= 0 -> sort_insert cmp a (l ++ [x]) = sort_insert cmp a l ++ [x].
Proof.
  intros H. induction l as [| y l IH]; simpl.
  - apply Z.leb_le in H. now rewrite H.
  - destruct (cmp a y <=? 0); [reflexivity |]. now rewrite IH.
Qed.

Lemma js_sort_snoc {A : Type} (f : A -> Z) (x : A) (l : list A) :
  Forall (fun a => f a <= f x) l ->
  js_sort (fun a b => f a - f b) (l ++ [x])
  = js_sort (fun a b => f a - f b) l ++ [x].
Proof.
  induction 1 as [| a l Ha _ IH]; simpl; [reflexivity |].
  rewrite IH. apply sort_insert_snoc. lia.
Qed.

Lemma map_get_remove_other {V : Type} (k k' : jsstring) (m : JSMap V) :
  k' <> k -> map_get k' (map_remove k m) = map_get k' m.
Proof.
  intros Hne. induction m as [| [k0 v0] m IH]; simpl; [reflexivity |].
  destruct (str_eq_dec k k0) as [-> | Hk]; simpl.
  - destruct (str_eq_dec k' k0); congruence.
  - destruct (str_eq_dec k' k0); congruence.
Qed.

Lemma filter_values_of_filter {V : Type} (p : V -> bool)
    (q : jsstring * V -> bool) (m : JSMap V) :
  (forall e, In e m -> p (snd e) = true -> q e = true) ->
  filter p (map_values (filter q m)) = filter p (map_values m).
Proof.
  induction m as [| e m IH]; simpl; [reflexivity |].
  intros H.
  assert (IH' : filter p (map_values (filter q m)) = filter p (map_values m))
    by (apply IH; intros; apply H; auto).
  destruct (q e) eqn:Hq; simpl.
  - now rewrite IH'.
  - destruct (p (snd e)) eqn:Hp; [| exact IH'].
    rewrite (H e (or_introl eq_refl) Hp) in Hq. discriminate.
Qed.

(** X4. [createMessage] with an identifier that is not in use stores the
    message under it, with the given conversation, role, content and
    metadata and the clock reading as [createdAt]. The list of its
    conversation gains exactly this message; when no stored message is
    later than the clock reading the message comes last in it. The list of
    every other conversation is the same as before. *)
Theorem createMessage_listed (id : jsstring) (now : Z)
    (message : InsertMessage.t) (s : MemStorage) :
  map_get id (messages s) = None ->
  let s' := fst (createMessage id now message s) in
  let newMessage := snd (createMessage id now message s) in
  let cid := InsertMessage.conversationId message in
  map_get id (messages s') = Some newMessage
  /\ newMessage
     = Message.mk id cid (InsertMessage.role message)
         (InsertMessage.content message) (InsertMessage.metadata message) now
  /\ Permutation (getMessagesByConversationId cid s')
       (newMessage :: getMessagesByConversationId cid s)
  /\ (Forall (fun msg => Message.createdAt msg <= now)
        (map_values (messages s)) ->
      getMessagesByConversationId cid s'
      = getMessagesByConversationId cid s ++ [newMessage])
  /\ (forall c, c <> cid ->
        getMessagesByConversationId c s' = getMessagesByConversationId c s)
  /\ users s' = users s
  /\ conversations s' = conversations s
  /\ apiKeys s' = apiKeys s.
Proof.
  intros Hfresh s' newMessage cid.
  assert (Hvals : map_values (messages s')
                  = map_values (messages s) ++ [newMessage]).
  { unfold s'. simpl. rewrite map_set_absent by assumption.
    unfold map_values. now rewrite map_app. }
  split; [apply map_get_set_same |]. split; [reflexivity |].
  unfold getMessagesByConversationId. rewrite Hvals, filter_app. simpl.
  replace (Message.conversationId newMessage) with cid by reflexivity.
  rewrite streq_refl.
  split.
  { rewrite (js_sort_perm Message.createdAt).
    rewrite (js_sort_perm Message.createdAt
               (filter _ (map_values (messages s)))).
    rewrite Permutation_app_comm. reflexivity. }
  split.
  { intros Hle. apply (js_sort_snoc Message.createdAt).
    apply Forall_forall. intros msg Hin. apply filter_In in Hin as [Hin _].
    rewrite Forall_forall in Hle. exact (Hle msg Hin). }
  split; [| repeat split].
  intros c Hc. rewrite filter_app. simpl. fold cid.
  assert (streq cid c = false) as -> by (apply streq_false; congruence).
  now rewrite app_nil_r.
Qed.

Lemma createMessage_listed_witness :
  getMessagesByConversationId (lit "c1")
    (fst (createMessage (lit "m4") 40
            (InsertMessage.mk (lit "c1") user (lit "Again") None)
            Sample.store1))
  = getMessagesByConversationId (lit "c1") Sample.store1
    ++ [Message.mk (lit "m4") (lit "c1") user (lit "Again") None 40].
Proof.
  apply (createMessage_listed (lit "m4") 40
           (InsertMessage.mk (lit "c1") user (lit "Again") None)
           Sample.store1 eq_refl).
  repeat constructor; simpl; lia.
Defined.

(** X5. In a store whose messages sit under their own ids,
    [deleteMessagesByConversationId] always returns [true], leaves the
    conversation without messages and the list of every other conversation
    as it was, does not touch the conversations themselves, and changes
    nothing when it is called again. *)
Theorem deleteMessages_frame (conversationId : jsstring) (s : MemStorage) :
  wf_storage s ->
  let s' := fst (deleteMessagesByConversationId conversationId s) in
  snd (deleteMessagesByConversationId conversationId s) = true
  /\ getMessagesByConversationId conversationId s' = []
  /\ (forall c, c <> conversationId ->
        getMessagesByConversationId c s' = getMessagesByConversationId c s)
  /\ conversations s' = conversations s
  /\ users s' = users s
  /\ apiKeys s' = apiKeys s
  /\ deleteMessagesByConversationId conversationId s' = (s', true).
Proof.
  intros Hwf s'. pose proof Hwf as (_ & _ & Hm & _).
  assert (Hs' : s' = set_messages
                       (filter (fun e => negb (streq (Message.conversationId
                                                        (snd e)) conversationId))
                          (messages s)) s)
    by now apply deleteMessages_spec.
  split; [reflexivity |].
  split.
  { rewrite Hs'. unfold getMessagesByConversationId. simpl.
    rewrite filter_none; [reflexivity |].
    intros msg Hin. unfold map_values in Hin.
    apply in_map_iff in Hin as [e [<- Hin]]. apply filter_In in Hin as [_ Hne].
    now apply negb_true_iff in Hne. }
  split.
  { intros c Hc. rewrite Hs'. unfold getMessagesByConversationId. simpl.
    rewrite filter_values_of_filter; [reflexivity |].
    intros e _ He. apply streq_true in He. apply negb_true_iff.
    apply streq_false. congruence. }
  rewrite Hs'. repeat split.
  assert (Hwf' : keyed_by Message.id
                   (messages
                      (set_messages
                         (filter (fun e => negb (streq (Message.conversationId
                                                          (snd e)) conversationId))
                            (messages s)) s)))
    by (simpl; now apply keyed_by_filter).
  pose proof (deleteMessages_spec conversationId _ Hwf') as E.
  match goal with
  | |- ?lhs = (?st, true) => transitivity (fst lhs, true); [reflexivity |]
  end.
  rewrite E. f_equal. unfold set_messages. simpl. f_equal.
  rewrite filter_twice. apply filter_ext. intros e. apply andb_diag.
Qed.

Lemma deleteMessages_frame_witness :
  map Message.id
    (getMessagesByConversationId (lit "c2")
       (fst (deleteMessagesByConversationId (lit "c1") Sample.store1)))
  = [lit "m3"].
Proof.
  pose proof (deleteMessages_frame (lit "c1") Sample.store1 wf_store1)
    as (_ & _ & H3 & _).
  rewrite H3; [reflexivity | discriminate].
Defined.

(** X6. In a store whose messages sit under their own ids,
    [deleteConversation] leaves every other conversation and the messages
    of every other conversation as they were, and does not touch users or
    keys. *)
Theorem deleteConversation_frame (id : jsstring) (s : MemStorage) :
  wf_storage s ->
  let s' := fst (deleteConversation id s) in
  (forall k, k <> id -> getConversation k s' = getConversation k s)
  /\ (forall c, c <> id ->
        getMessagesByConversationId c s' = getMessagesByConversationId c s)
  /\ users s' = users s
  /\ apiKeys s' = apiKeys s.
Proof.
  intros Hwf s'. pose proof Hwf as (_ & _ & Hm & _).
  assert (Hs' : s' = set_conversations (map_remove id (conversations s))
                       (set_messages
                          (filter (fun e => negb (streq (Message.conversationId
                                                           (snd e)) id))
                             (messages s)) s)).
  { unfold s'.
    change (fst (deleteConversation id s))
      with (set_conversations (map_remove id (conversations s))
              (fst (deleteMessagesByConversationId id s))).
    now rewrite deleteMessages_spec. }
  rewrite Hs'. repeat split.
  - intros k Hk. unfold getConversation. simpl.
    now apply map_get_remove_other.
  - intros c Hc. unfold getMessagesByConversationId. simpl.
    rewrite filter_values_of_filter; [reflexivity |].
    intros e _ He. apply streq_true in He. apply negb_true_iff.
    apply streq_false. congruence.
Qed.

Lemma deleteConversation_frame_witness :
  map Message.id
    (getMessagesByConversationId (lit "c2")
       (fst (deleteConversation (lit "c1") Sample.store1)))
  = [lit "m3"].
Proof.
  pose proof (deleteConversation_frame (lit "c1") Sample.store1 wf_store1)
    as (_ & H2 & _).
  rewrite H2; [reflexivity | discriminate].
Defined.

Lemma find_snoc {A : Type} (p : A -> bool) (l : list A) (x : A) :
  List.find p (l ++ [x])
  = match List.find p l with
    | Some y => Some y
    | None => if p x then Some x else None
    end.
Proof.
  induction l as [| a l IH]; simpl; [reflexivity |]. now destruct (p a).
Qed.

Lemma map_remove_snoc {V : Type} (k : jsstring) (v : V) (m : JSMap V) :
  map_get k m = None -> map_remove k (m ++ [(k, v)]) = m.
Proof.
  induction m as [| [k' v'] m IH]; simpl.
  - intros _. destruct (str_eq_dec k k); congruence.
  - destruct (str_eq_dec k k'); [discriminate |]. intros H. now rewrite IH.
Qed.

Lemma deactivated_none_active u p (m : JSMap ApiKey.t) :
  filter (fun key => same_pair u p key && ApiKey.isActive key)
    (map_values (map (deactivate_pair u p) m)) = [].
Proof.
  apply filter_none. intros key Hin. unfold map_values in Hin.
  rewrite map_map in Hin. apply in_map_iff in Hin as [e [<- _]].
  unfold deactivate_pair.
  destruct (same_pair u p (snd e)) eqn:E; simpl.
  - apply andb_false_r.
  - now rewrite E.
Qed.

Lemma keyed_value_lookup {V : Type} (idf : V -> jsstring) (m : JSMap V) (v : V) :
  keyed_by idf m -> In v (map_values m) -> map_get (idf v) m = Some v.
Proof.
  intros [Hnd Hall] Hin. unfold map_values in Hin.
  apply in_map_iff in Hin as [[k v'] [Hv Hin]]. simpl in Hv. subst v'.
  rewrite Forall_forall in Hall. pose proof (Hall _ Hin) as Hk. simpl in Hk.
  rewrite Hk. now apply map_get_In.
Qed.

(** With at most one active key per pair, the pair has none after
    [deleteApiKey]. *)
Lemma deleteApiKey_clears (userId provider : jsstring) (s : MemStorage) :
  wf_storage s -> at_most_one_active s ->
  getApiKey userId provider (fst (deleteApiKey userId provider s)) = None.
Proof.
  intros Hwf Hone. pose proof Hwf as (_ & _ & _ & Ha).
  unfold deleteApiKey.
  destruct (getApiKey userId provider s) as [key |] eqn:Hget;
    [| simpl; exact Hget].
  pose proof Hget as Hfind. unfold getApiKey, js_find in Hfind.
  apply find_some in Hfind as [Hin Hp].
  unfold getApiKey, js_find. rewrite find_filter. simpl.
  rewrite map_remove_filter by apply Ha.
  rewrite filter_none; [reflexivity |].
  intros x Hx. apply not_true_is_false. intros Hpx.
  unfold map_values in Hx. apply in_map_iff in Hx as [[k x'] [Hx' Hx]].
  simpl in Hx'. subst x'. apply filter_In in Hx as [Hx Hk]. simpl in Hk.
  assert (Hxin : In x (active_keys userId provider s)).
  { apply filter_In. split; [| exact Hpx].
    change x with (snd (k, x)). now apply in_map. }
  assert (Hkin : In key (active_keys userId provider s))
    by (apply filter_In; split; assumption).
  specialize (Hone userId provider).
  destruct (active_keys userId provider s) as [| a [| b l]];
    simpl in *; try lia; try tauto.
  destruct Hxin as [<- | []]. destruct Hkin as [Hak | []]. subst a.
  destruct Ha as [_ Hall]. rewrite Forall_forall in Hall.
  pose proof (Hall _ Hx) as Hid. simpl in Hid. subst k.
  now rewrite streq_refl in Hk.
Qed.

(** X7. In a store whose keys sit under their own ids: with no active key
    for the pair, [deleteApiKey] returns [false] and changes nothing;
    otherwise the key [getApiKey] returns belongs to the pair and is active,
    [deleteApiKey] returns [true] and removes that key and no other, and in
    a store with at most one active key per pair the pair has no active key
    afterwards: an older, inactive key of the pair stays inactive. *)
Theorem deleteApiKey_behaviour (userId provider : jsstring) (s : MemStorage) :
  wf_storage s ->
  (getApiKey userId provider s = None ->
   deleteApiKey userId provider s = (s, false))
  /\ (forall key,
        getApiKey userId provider s = Some key ->
        let s' := fst (deleteApiKey userId provider s) in
        In key (map_values (apiKeys s))
        /\ ApiKey.userId key = userId
        /\ ApiKey.provider key = provider
        /\ ApiKey.isActive key = true
        /\ deleteApiKey userId provider s
           = (set_apiKeys (map_remove (ApiKey.id key) (apiKeys s)) s, true)
        /\ map_get (ApiKey.id key) (apiKeys s') = None
        /\ (forall k, k <> ApiKey.id key ->
              map_get k (apiKeys s') = map_get k (apiKeys s))
        /\ (at_most_one_active s -> getApiKey userId provider s' = None)).
Proof.
  intros Hwf. pose proof Hwf as (_ & _ & _ & Ha). split.
  - intros H. unfold deleteApiKey. now rewrite H.
  - intros key Hget. cbv zeta.
    pose proof Hget as Hfind. unfold getApiKey, js_find in Hfind.
    apply find_some in Hfind as [Hin Hp].
    apply andb_true_iff in Hp as [Hp Hact].
    apply andb_true_iff in Hp as [Hu Hpr].
    apply streq_true in Hu. apply streq_true in Hpr.
    pose proof (keyed_value_lookup ApiKey.id _ _ Ha Hin) as Hlook.
    assert (Hdel : deleteApiKey userId provider s
                   = (set_apiKeys (map_remove (ApiKey.id key) (apiKeys s)) s,
                      true)).
    { unfold deleteApiKey. rewrite Hget. unfold map_delete, map_has.
      now rewrite Hlook. }
    rewrite Hdel. simpl.
    repeat split; try assumption.
    + apply map_get_remove_same, Ha.
    + intros k Hk. now apply map_get_remove_other.
    + intros Hone.
      pose proof (deleteApiKey_clears userId provider s Hwf Hone) as H.
      now rewrite Hdel in H.
Qed.

Lemma deleteApiKey_behaviour_witness :
  deleteApiKey mockUserId (lit "openai") Sample.store1
  = (set_apiKeys [(lit "k2", Sample.keyOther)] Sample.store1, true)
  /\ deleteApiKey mockUserId (lit "google") Sample.store1
     = (Sample.store1, false).
Proof.
  destruct (deleteApiKey_behaviour mockUserId (lit "openai") Sample.store1
              wf_store1) as [_ H2].
  destruct (deleteApiKey_behaviour mockUserId (lit "google") Sample.store1
              wf_store1) as [H1 _].
  split; [| apply H1; reflexivity].
  destruct (H2 Sample.keyOld eq_refl) as (_ & _ & _ & _ & H & _).
  exact H.
Defined.

(** X8. Replacing the key of a pair and then deleting it does not bring
    the earlier key back: in a store whose keys sit under their own ids,
    [setApiKey] with a fresh identifier followed by [deleteApiKey] for the
    same pair returns [true] and leaves the keys the store had before, those
    of the pair deactivated, so that the pair has no active key. *)
Theorem setApiKey_then_deleteApiKey (id : jsstring) (now : Z)
    (apiKey : InsertApiKey.t) (s : MemStorage) :
  wf_storage s ->
  map_get id (apiKeys s) = None ->
  let u := InsertApiKey.userId apiKey in
  let p := InsertApiKey.provider apiKey in
  let s1 := fst (setApiKey id now apiKey s) in
  deleteApiKey u p s1
  = (set_apiKeys (map (deactivate_pair u p) (apiKeys s)) s, true)
  /\ getApiKey u p (fst (deleteApiKey u p s1)) = None.
Proof.
  intros Hwf Hfresh u p s1.
  pose proof (setApiKey_apiKeys id now apiKey s Hwf Hfresh) as Hkeys.
  fold u p s1 in Hkeys.
  assert (Hnew : getApiKey u p s1 = Some (snd (setApiKey id now apiKey s))).
  { unfold getApiKey, js_find. rewrite find_filter.
    change (hd_error (active_keys u p s1) = Some (snd (setApiKey id now apiKey s))).
    unfold s1. rewrite setApiKey_active by assumption.
    simpl. unfold same_pair. simpl. fold u p. now rewrite !streq_refl. }
  assert (Hfresh' : map_get id (map (deactivate_pair u p) (apiKeys s)) = None).
  { apply map_get_None_keys. rewrite deactivate_pair_keys.
    now apply map_get_None_keys. }
  assert (Hdel : deleteApiKey u p s1
                 = (set_apiKeys (map (deactivate_pair u p) (apiKeys s)) s, true)).
  { unfold deleteApiKey. rewrite Hnew. unfold map_delete, map_has.
    simpl ApiKey.id. rewrite Hkeys.
    rewrite map_remove_snoc by assumption.
    rewrite <- (map_set_absent id _ _ Hfresh'), map_get_set_same.
    reflexivity. }
  rewrite Hdel. split; [reflexivity |].
  unfold getApiKey, js_find. rewrite find_filter.
  change (hd_error
            (filter (fun key => same_pair u p key && ApiKey.isActive key)
               (map_values (map (deactivate_pair u p) (apiKeys s)))) = None).
  now rewrite deactivated_none_active.
Qed.

Lemma setApiKey_then_deleteApiKey_witness :
  getApiKey mockUserId (lit "openai")
    (fst (deleteApiKey mockUserId (lit "openai")
            (fst (setApiKey (lit "k3") 9 Sample.newOpenAI Sample.store1))))
  = None.
Proof.
  apply (setApiKey_then_deleteApiKey (lit "k3") 9 Sample.newOpenAI
           Sample.store1 wf_store1 eq_refl).
Defined.

(** X9. [createUser] with an identifier that is not in use stores the user
    under it, and does not check the username: when a stored user already
    has that name, [getUserByUsername] keeps returning the earlier user, and
    returns the new one otherwise. Lookups of other ids and names are
    unchanged. *)
Theorem createUser_lookup (id : jsstring) (insertUser : InsertUser.t)
    (s : MemStorage) :
  map_get id (users s) = None ->
  let s' := fst (createUser id insertUser s) in
  let newUser := snd (createUser id insertUser s) in
  newUser = User.mk id (InsertUser.username insertUser)
              (InsertUser.password insertUser)
  /\ getUser id s' = Some newUser
  /\ getUserByUsername (InsertUser.username insertUser) s'
     = match getUserByUsername (InsertUser.username insertUser) s with
       | Some earlier => Some earlier
       | None => Some newUser
       end
  /\ (forall name, name <> InsertUser.username insertUser ->
        getUserByUsername name s' = getUserByUsername name s)
  /\ (forall k, k <> id -> getUser k s' = getUser k s)
  /\ conversations s' = conversations s
  /\ messages s' = messages s
  /\ apiKeys s' = apiKeys s.
Proof.
  intros Hfresh s' newUser.
  assert (Hvals : map_values (users s') = map_values (users s) ++ [newUser]).
  { unfold s'. simpl. rewrite map_set_absent by assumption.
    unfold map_values. now rewrite map_app. }
  split; [reflexivity |]. split; [apply map_get_set_same |].
  unfold getUserByUsername, js_find. rewrite Hvals.
  split.
  { rewrite find_snoc. simpl. now rewrite streq_refl. }
  split.
  { intros name Hname. rewrite find_snoc. simpl.
    assert (streq (InsertUser.username insertUser) name = false) as ->
        by (apply streq_false; congruence).
    now destruct (List.find _ _). }
  split; [| repeat split].
  intros k Hk. unfold getUser. simpl. now apply map_get_set_other.
Qed.

Lemma createUser_lookup_witness :
  option_map User.id
    (getUserByUsername (lit "ada")
       (fst (createUser (lit "u2") (InsertUser.mk (lit "ada") (lit "pw2"))
               (fst (createUser (lit "u1")
                       (InsertUser.mk (lit "ada") (lit "pw1"))
                       empty_storage)))))
  = Some (lit "u1").
Proof.
  pose proof (createUser_lookup (lit "u2") (InsertUser.mk (lit "ada") (lit "pw2"))
                (fst (createUser (lit "u1")
                        (InsertUser.mk (lit "ada") (lit "pw1")) empty_storage))
                eq_refl) as (_ & _ & H & _).
  cbv zeta in H. cbn [InsertUser.username] in H. rewrite H. reflexivity.
Defined.

(* ================================================================= *)
(** * Further properties of the provider adapter *)

Lemma calls_async_bind_await {B : Type} (up : Upstream) (c : Outbound)
    (f : reply_type c -> Async B) :
  calls up (async_bind (await c) f)
  = c :: calls up (match up c with Ok a => f a | Err e => throw e end).
Proof. reflexivity. Qed.

(** The adapter of a provider makes one call, with the credential and the
    model it was given, and fails with the error of that call when the call
    is rejected; the adapter of Cohere makes none on an empty history. *)
Lemma adapter_calls (up : Upstream) (p : AIProviderType)
    (apiKey : jsstring) (messages : list ChatTurn.t) (m : jsstring) :
  let io :=
    match p with
    | openai => sendOpenAIMessage apiKey messages m
    | anthropic => sendAnthropicMessage apiKey messages m
    | google => sendGoogleMessage apiKey messages m
    | huggingface => sendHuggingFaceMessage apiKey messages m
    | cerebras => sendCerebrasMessage apiKey messages m
    | sambanova => sendSambanovaMessage apiKey messages m
    | mistral => sendMistralMessage apiKey messages m
    | cohere => sendCohereMessage apiKey messages m
    | xai => sendXAIMessage apiKey messages m
    | perplexity => sendPerplexityMessage apiKey messages m
    | together => sendTogetherMessage apiKey messages m
    | fireworks => sendFireworksMessage apiKey messages m
    end in
  (p = cohere /\ messages = [] /\ calls up io = []
   /\ run up io = Err TypeError)
  \/ (exists c,
        calls up io = [c]
        /\ credential_of c = apiKey
        /\ model_of c = m
        /\ (p = cohere -> messages <> [])
        /\ (forall e, up c = Err e -> run up io = Err e)).
Proof.
  cbv zeta.
  destruct p;
    unfold sendOpenAIMessage, sendAnthropicMessage, sendGoogleMessage,
      sendHuggingFaceMessage, sendCerebrasMessage, sendSambanovaMessage,
      sendMistralMessage, sendXAIMessage,
      sendPerplexityMessage, sendTogetherMessage, sendFireworksMessage,
      sendOpenAICompatible;
    cbv zeta;
    try (right;
         rewrite calls_async_bind_await, !run_async_bind, run_await;
         match goal with
         | |- context [up ?c] => exists c; destruct (up c) as [resp | e0]
         end;
         repeat split; try reflexivity; try discriminate;
         try (intros e He; congruence);
         try (destruct (OpenAI.choices resp); reflexivity)).
  unfold sendCohereMessage. cbv zeta.
  destruct messages as [| a l].
  - left. repeat split.
  - right.
    assert (Hlast : exists t, last_message (a :: l) = Some t).
    { unfold last_message. clear. revert a.
      induction l as [| b l IH]; intros a; [now exists a |].
      destruct (IH b) as [t Ht]. exists t. exact Ht. }
    destruct Hlast as [t ->].
    rewrite calls_async_bind_await, !run_async_bind, run_await.
    match goal with
    | |- context [up ?c] => exists c; destruct (up c) as [resp | e0]
    end;
      repeat split; try reflexivity; try discriminate;
      intros e He; congruence.
Qed.

(** X10. [sendMessage] is a single attempt: under every upstream it makes
    at most one outbound call, that call carries the credential it was
    given and the selected model, and when the call is rejected
    [sendMessage] fails with the very error of the call, without a second
    try. It makes no call at all exactly when the provider is outside the
    enumeration, where it fails with [Unsupported provider: <name>], or
    when the provider is Cohere and the history is empty. *)
Theorem sendMessage_single_attempt (up : Upstream)
    (provider apiKey : jsstring) (messages : list ChatTurn.t)
    (model : option jsstring) :
  let io := sendMessage provider apiKey messages model in
  (List.length (calls up io) <= 1)%nat
  /\ (forall c,
        In c (calls up io) ->
        credential_of c = apiKey
        /\ (forall p, AIProvider_parse provider = Some p ->
                      model_of c = or_else model (DEFAULT_MODELS p))
        /\ (forall e, up c = Err e -> run up io = Err e))
  /\ (calls up io = []
      <-> AIProvider_parse provider = None
          \/ (provider = lit "cohere" /\ messages = []))
  /\ (AIProvider_parse provider = None ->
      run up io = Err (JsError (lit "Unsupported provider: " ++ provider))).
Proof.
  cbv zeta. unfold sendMessage.
  destruct (AIProvider_parse provider) as [p |] eqn:E.
  - cbv zeta.
    pose proof (adapter_calls up p apiKey messages
                  (or_else model (DEFAULT_MODELS p))) as H.
    cbv zeta in H.
    destruct H as [(Hp & Hm & Hc & Hr)
                  | (c & Hc & Hcred & Hmod & Hne & Herr)].
    + rewrite Hc. simpl. split; [lia |]. split; [tauto |].
      split; [| discriminate]. split; [| reflexivity].
      intros _. right. split; [| assumption].
      apply AIProvider_parse_Some in E. now subst.
    + rewrite Hc. simpl. split; [lia |]. split.
      * intros c' [<- | []]. split; [assumption |]. split; [| assumption].
        intros p' [= <-]. assumption.
      * split; [| discriminate]. split; [discriminate |].
        intros [Hn | [Hp Hm]]; [discriminate |]. exfalso.
        subst provider. change (lit "cohere") with (provider_name cohere) in E.
        rewrite AIProvider_parse_name in E. injection E as <-.
        now apply Hne.
  - simpl. split; [lia |]. split; [tauto |]. split; [| reflexivity].
    split; [now left | reflexivity].
Qed.

Lemma sendMessage_single_attempt_witness :
  run Sample.up_down
    (sendMessage (lit "mistral") (lit "sk-test") [Sample.turn1] None)
  = Err (UpstreamError (lit "401 Incorrect API key provided"))
  /\ run Sample.up_ok (sendMessage (lit "bogus") (lit "sk-test") [] None)
     = Err (JsError (lit "Unsupported provider: bogus")).
Proof.
  pose proof (sendMessage_single_attempt Sample.up_down (lit "mistral")
                (lit "sk-test") [Sample.turn1] None) as (_ & H2 & _).
  pose proof (sendMessage_single_attempt Sample.up_ok (lit "bogus")
                (lit "sk-test") [] None) as (_ & _ & _ & H4).
  split; [| apply H4; reflexivity].
  cbv zeta in H2.
  eapply H2; [simpl; left; reflexivity | reflexivity].
Defined.

(** X11. For every supported provider the list of [getAvailableModels]
    begins with the provider's entry of [DEFAULT_MODELS], and
    [GET /api/providers/:provider/models] answers 200 with that list; for
    any other name the list is empty and the route answers 400. Neither
    touches the store. *)
Theorem default_model_listed_first (s : MemStorage) :
  (forall p : AIProviderType,
      exists rest,
        getAvailableModels (provider_name p) = DEFAULT_MODELS p :: rest
        /\ get_models (provider_name p) s
           = (s, mkResponse 200 (models_body (DEFAULT_MODELS p :: rest))))
  /\ (forall name,
        AIProvider_parse name = None ->
        getAvailableModels name = []
        /\ get_models name s = (s, fail 400 "Invalid provider")).
Proof.
  split.
  - intros p. unfold get_models. rewrite AIProvider_parse_name.
    destruct p; eexists; split; reflexivity.
  - intros name H. unfold get_models, getAvailableModels. now rewrite H.
Qed.

Lemma default_model_listed_first_witness :
  getAvailableModels (lit "gemini") = []
  /\ get_models (lit "gemini") Sample.store1
     = (Sample.store1, fail 400 "Invalid provider").
Proof.
  apply (default_model_listed_first Sample.store1). reflexivity.
Defined.






Lemma last_message_snoc (h : list ChatTurn.t) (t : ChatTurn.t) :
  last_message (h ++ [t]) = Some t.
Proof.
  unfold last_message. rewrite map_app. simpl. apply last_last.
Qed.

(** X13. On a history with a last turn the adapter of Cohere makes one
    call: its [message] is the content of the last turn, its [chatHistory]
    holds the earlier turns in order, as [USER] for the user and [CHATBOT]
    for the assistant, and is left out when there is no earlier turn. The
    role of the last turn is not sent: the same request goes out whatever
    that role is. *)
Theorem cohere_request_texts (up : Upstream) (apiKey : jsstring)
    (h : list ChatTurn.t) (t : ChatTurn.t) (model : option jsstring) :
  exists params,
    calls up (sendMessage (lit "cohere") apiKey (h ++ [t]) model)
    = [Cohere_chat apiKey params]
    /\ CohereSDK.message_text params = ChatTurn.content t
    /\ cohere_texts params = map ChatTurn.content (h ++ [t])
    /\ (CohereSDK.chatHistory params = None <-> h = [])
    /\ (forall hist,
          CohereSDK.chatHistory params = Some hist ->
          map CohereSDK.role hist
          = map (fun x => match ChatTurn.role x with
                          | user => CohereSDK.USER
                          | assistant => CohereSDK.CHATBOT
                          end) h)
    /\ (forall r,
          calls up
            (sendMessage (lit "cohere") apiKey
               (h ++ [ChatTurn.mk r (ChatTurn.content t) (ChatTurn.images t)])
               model)
          = [Cohere_chat apiKey params]).
Proof.
  assert (Hcalls :
            forall t0,
              calls up (sendMessage (lit "cohere") apiKey (h ++ [t0]) model)
              = [Cohere_chat apiKey
                   (CohereSDK.mkParams (or_else model (DEFAULT_MODELS cohere))
                      (ChatTurn.content t0)
                      (match map (fun msg =>
                                    CohereSDK.mkTurn
                                      (match ChatTurn.role msg with
                                       | user => CohereSDK.USER
                                       | assistant => CohereSDK.CHATBOT
                                       end) (ChatTurn.content msg)) h with
                       | _ :: _ =>
                           Some (map (fun msg =>
                                        CohereSDK.mkTurn
                                          (match ChatTurn.role msg with
                                           | user => CohereSDK.USER
                                           | assistant => CohereSDK.CHATBOT
                                           end) (ChatTurn.content msg)) h)
                       | [] => None
                       end))]).
  { intros t0.
    change (sendMessage (lit "cohere") apiKey (h ++ [t0]) model)
      with (sendCohereMessage apiKey (h ++ [t0])
              (or_else model (DEFAULT_MODELS cohere))).
    unfold sendCohereMessage. cbv zeta.
    rewrite last_message_snoc, removelast_last, calls_async_bind_await.
    f_equal. destruct (up _) as [resp | e]; reflexivity. }
  eexists. split; [apply Hcalls |].
  split; [reflexivity |]. split.
  { unfold cohere_texts. cbn [CohereSDK.chatHistory CohereSDK.message_text].
    rewrite map_app. simpl. f_equal.
    destruct h as [| a l]; [reflexivity |]. cbn [map].
    f_equal. rewrite map_map. reflexivity. }
  split.
  { cbn [CohereSDK.chatHistory]. destruct h as [| a l]; simpl.
    - tauto.
    - split; discriminate. }
  split.
  { cbn [CohereSDK.chatHistory]. intros hist.
    destruct h as [| a l]; [discriminate |].
    cbn [map]. intros [= <-]. cbn [map CohereSDK.role]. f_equal.
    rewrite map_map. reflexivity. }
  intros r. apply (Hcalls (ChatTurn.mk r (ChatTurn.content t) (ChatTurn.images t))).
Qed.

Lemma remove_first_unfold (p s : jsstring) :
  remove_first p s
  = if starts_with p s then skipn (List.length p) s
    else match s with
         | [] => []
         | c :: s' => c :: remove_first p s'
         end.
Proof. destruct s; reflexivity. Qed.

Lemma starts_with_app (p r : jsstring) : starts_with p (p ++ r) = true.
Proof.
  induction p as [| a p IH]; simpl; [reflexivity |].
  now rewrite N.eqb_refl, IH.
Qed.

Lemma remove_first_prefix (p r : jsstring) : remove_first p (p ++ r) = r.
Proof.
  rewrite remove_first_unfold, starts_with_app.
  induction p as [| a p IH]; simpl; [reflexivity | exact IH].
Qed.

(** X14. When the text-generation service returns the prompt followed by a
    completion, as it does when it echoes its input, the reply of the
    Hugging Face adapter is the completion alone, with the white space
    around it trimmed; its usage is absent. *)
Theorem huggingface_strips_echo (up : Upstream) (apiKey : jsstring)
    (h : list ChatTurn.t) (model : option jsstring) (completion : jsstring) :
  (forall params,
      up (Hf_textGeneration apiKey params)
      = Ok (Hf.mkReply (Hf.inputs params ++ completion))) ->
  exists reply,
    run up (sendMessage (lit "huggingface") apiKey h model) = Ok reply
    /\ AIResponse.content reply = trim completion
    /\ AIResponse.usage reply = None.
Proof.
  intros Hecho.
  change (sendMessage (lit "huggingface") apiKey h model)
    with (sendHuggingFaceMessage apiKey h
            (or_else model (DEFAULT_MODELS huggingface))).
  unfold sendHuggingFaceMessage. cbv zeta.
  rewrite run_async_bind, run_await, Hecho.
  eexists. split; [reflexivity |]. split; [| reflexivity].
  cbn [AIResponse.content Hf.generated_text Hf.inputs].
  now rewrite remove_first_prefix.
Qed.

Lemma huggingface_strips_echo_witness :
  option_map AIResponse.content
    (match run Sample.up_ok
             (sendMessage (lit "huggingface") (lit "hf-test") [Sample.turn1]
                None) with
     | Ok reply => Some reply
     | Err _ => None
     end)
  = Some (lit "Hi there").
Proof.
  destruct (huggingface_strips_echo Sample.up_ok (lit "hf-test")
              [Sample.turn1] None (lit " Hi there") (fun _ => eq_refl))
    as (reply & Hrun & Hcontent & _).
  rewrite Hrun. simpl. rewrite Hcontent. reflexivity.
Defined.



(* ================================================================= *)
(** * Further properties of the routes *)

Lemma sendMessage_calls_spec (up : Upstream) (provider apiKey : jsstring)
    (messages : list ChatTurn.t) (model : option jsstring) :
  (List.length (calls up (sendMessage provider apiKey messages model)) <= 1)%nat
  /\ (forall c,
        In c (calls up (sendMessage provider apiKey messages model)) ->
        credential_of c = apiKey
        /\ (forall p, AIProvider_parse provider = Some p ->
                      model_of c = or_else model (DEFAULT_MODELS p))).
Proof.
  unfold sendMessage.
  destruct (AIProvider_parse provider) as [p |] eqn:E.
  - cbv zeta.
    pose proof (adapter_calls up p apiKey messages
                  (or_else model (DEFAULT_MODELS p))) as H.
    cbv zeta in H.
    destruct H as [(_ & _ & Hc & _) | (c & Hc & Hcred & Hmod & _)];
      rewrite Hc; simpl; (split; [lia |]); [tauto |].
    intros c' [<- | []]. split; [assumption |]. now intros p' [= <-].
  - simpl. split; [lia | tauto].
Qed.

(** The outcome and the calls of [POST /api/conversations/:id/messages]
    once the conversation, the body and the key are in order. *)
Lemma post_messages_run (up : Upstream) (uuid1 uuid2 : jsstring)
    (now1 now2 now3 now4 : Z) (id : jsstring) (req_body : JSON)
    (s : MemStorage) (conversation : Conversation.t)
    (messageData : ChatMessage.t) (apiKey : ApiKey.t) :
  owned (getConversation id s) = Some conversation ->
  ChatMessageSchema_parse req_body = Some messageData ->
  getApiKey mockUserId (Conversation.provider conversation) s = Some apiKey ->
  let saved :=
    createMessage uuid1 now1
      (InsertMessage.mk id user (ChatMessage.content messageData)
         (match ChatMessage.images messageData with
          | Some images => Some (MetaImages images)
          | None => None
          end)) s in
  let chatHistory :=
    map (fun msg => ChatTurn.mk (Message.role msg) (Message.content msg)
                      (metadata_images (Message.metadata msg)))
      (getMessagesByConversationId id (fst saved)) in
  let sent :=
    sendMessage (Conversation.provider conversation)
      (ApiKey.keyValue apiKey) chatHistory
      (Some (Conversation.model conversation)) in
  calls up (post_messages uuid1 uuid2 now1 now2 now3 now4 id req_body s)
  = calls up sent
  /\ run up (post_messages uuid1 uuid2 now1 now2 now3 now4 id req_body s)
     = match run up sent with
       | Err _ => (fst saved, fail 500 "Failed to send message")
       | Ok aiResponse =>
           let answered :=
             createMessage uuid2 now2
               (InsertMessage.mk id assistant (AIResponse.content aiResponse)
                  (Some (MetaUsage (AIResponse.usage aiResponse))))
               (fst saved) in
           (fst (updateConversation id
                   (PartialConversation.mk None None None None None None
                      (Some now3)) now4 (fst answered)),
            json (exchange_body (snd saved) (snd answered)))
       end.
Proof.
  intros Hown Hbody Hkey. cbv zeta. unfold post_messages.
  rewrite Hown, Hbody, Hkey.
  destruct (createMessage uuid1 now1 _ s) as [s1 userMessage].
  cbn [fst snd]. rewrite calls_io_bind, run_io_bind.
  destruct (run up (sendMessage _ _ _ _)) as [aiResponse | e].
  - destruct (createMessage uuid2 now2 _ s1) as [s2 assistantMessage].
    cbn [fst snd]. destruct (updateConversation _ _ _ _) as [s3 updated].
    split; [apply app_nil_r | reflexivity].
  - split; [apply app_nil_r | reflexivity].
Qed.

(** X16. The send route hands the provider the secret as it is stored:
    when the conversation, the body and the key are in order, under every
    upstream the request makes at most one outbound call, and that call
    carries the [keyValue] of the user's active key for the conversation's
    provider and, when the conversation's model is not empty, that model. *)
Theorem post_messages_uses_stored_key (up : Upstream) (uuid1 uuid2 : jsstring)
    (now1 now2 now3 now4 : Z) (id : jsstring) (req_body : JSON)
    (s : MemStorage) (conversation : Conversation.t)
    (messageData : ChatMessage.t) (apiKey : ApiKey.t) :
  owned (getConversation id s) = Some conversation ->
  ChatMessageSchema_parse req_body = Some messageData ->
  getApiKey mockUserId (Conversation.provider conversation) s = Some apiKey ->
  let io := post_messages uuid1 uuid2 now1 now2 now3 now4 id req_body s in
  (List.length (calls up io) <= 1)%nat
  /\ (forall c,
        In c (calls up io) ->
        credential_of c = ApiKey.keyValue apiKey
        /\ (Conversation.model conversation <> [] ->
            model_of c = Conversation.model conversation)).
Proof.
  intros Hown Hbody Hkey io. unfold io.
  destruct (post_messages_run up uuid1 uuid2 now1 now2 now3 now4 id req_body s
              conversation messageData apiKey Hown Hbody Hkey) as [Hcalls _].
  cbv zeta in Hcalls. rewrite Hcalls.
  match goal with
  | |- context [calls up (sendMessage ?p ?k ?h ?m)] =>
      destruct (sendMessage_calls_spec up p k h m) as [Hlen Hall]
  end.
  split; [exact Hlen |].
  intros c Hin. destruct (Hall c Hin) as [Hcred Hmod]. split; [exact Hcred |].
  intros Hne.
  destruct (AIProvider_parse (Conversation.provider conversation)) as [p |] eqn:E.
  - rewrite (Hmod p eq_refl). simpl.
    destruct (Conversation.model conversation); [congruence | reflexivity].
  - exfalso. unfold sendMessage in Hin. rewrite E in Hin. exact Hin.
Qed.

Lemma post_messages_uses_stored_key_witness :
  Forall (fun c => credential_of c = lit "sk-old-secret-0001")
    (calls Sample.up_ok
       (post_messages (lit "u1") (lit "u2") 1 2 3 4 (lit "c1") Sample.hello
          Sample.store1))
  /\ List.length
       (calls Sample.up_ok
          (post_messages (lit "u1") (lit "u2") 1 2 3 4 (lit "c1") Sample.hello
             Sample.store1)) = 1%nat.
Proof.
  pose proof (post_messages_uses_stored_key Sample.up_ok (lit "u1") (lit "u2")
                1 2 3 4 (lit "c1") Sample.hello Sample.store1 Sample.conv1
                (ChatMessage.mk (lit "Hello") None None) Sample.keyOld
                eq_refl eq_refl eq_refl) as [_ H].
  split; [| reflexivity].
  apply Forall_forall. intros c Hc. exact (proj1 (H c Hc)).
Defined.

Lemma owned_Some (c : option Conversation.t) (conversation : Conversation.t) :
  owned c = Some conversation ->
  c = Some conversation
  /\ Conversation.userId conversation = Some mockUserId.
Proof.
  unfold owned. destruct c as [c' |]; [| discriminate].
  destruct (opt_streq (Conversation.userId c') mockUserId) eqn:E;
    [| discriminate].
  intros [= <-]. split; [reflexivity | now apply opt_streq_true].
Qed.

Lemma owned_None (c : option Conversation.t) :
  owned c = None <->
  (forall conversation,
      c = Some conversation ->
      Conversation.userId conversation <> Some mockUserId).
Proof.
  unfold owned. destruct c as [c' |].
  - destruct (opt_streq (Conversation.userId c') mockUserId) eqn:E.
    + apply opt_streq_true in E. split; [discriminate |].
      intros H. exfalso. now apply (H c').
    + split; [| reflexivity]. intros _ conversation [= <-] Hu.
      apply opt_streq_true in Hu. congruence.
  - split; [discriminate | reflexivity].
Qed.

(** X17. A complete exchange. When the conversation, the body and the key
    are in order, the two identifiers differ and [sendMessage] resolves,
    the request answers 200 with the two messages; the store holds the user
    message and, after it, an assistant message with the content and the
    usage of the reply; the conversation keeps every field but [updatedAt],
    which becomes the clock reading taken inside [updateConversation], not
    the one the route passed; every other conversation, the users and the
    keys are untouched. *)
Theorem post_messages_success (up : Upstream) (uuid1 uuid2 : jsstring)
    (now1 now2 now3 now4 : Z) (id : jsstring) (req_body : JSON)
    (s : MemStorage) (conversation : Conversation.t)
    (messageData : ChatMessage.t) (apiKey : ApiKey.t)
    (aiResponse : AIResponse.t) :
  owned (getConversation id s) = Some conversation ->
  ChatMessageSchema_parse req_body = Some messageData ->
  getApiKey mockUserId (Conversation.provider conversation) s = Some apiKey ->
  uuid1 <> uuid2 ->
  let userMessage :=
    Message.mk uuid1 id user (ChatMessage.content messageData)
      (match ChatMessage.images messageData with
       | Some images => Some (MetaImages images)
       | None => None
       end) now1 in
  let chatHistory :=
    map (fun msg => ChatTurn.mk (Message.role msg) (Message.content msg)
                      (metadata_images (Message.metadata msg)))
      (getMessagesByConversationId id
         (set_messages (map_set uuid1 userMessage (messages s)) s)) in
  run up (sendMessage (Conversation.provider conversation)
            (ApiKey.keyValue apiKey) chatHistory
            (Some (Conversation.model conversation))) = Ok aiResponse ->
  let assistantMessage :=
    Message.mk uuid2 id assistant (AIResponse.content aiResponse)
      (Some (MetaUsage (AIResponse.usage aiResponse))) now2 in
  let after :=
    run up (post_messages uuid1 uuid2 now1 now2 now3 now4 id req_body s) in
  snd after = mkResponse 200 (exchange_body userMessage assistantMessage)
  /\ messages (fst after)
     = map_set uuid2 assistantMessage
         (map_set uuid1 userMessage (messages s))
  /\ map_get uuid1 (messages (fst after)) = Some userMessage
  /\ map_get uuid2 (messages (fst after)) = Some assistantMessage
  /\ getConversation id (fst after)
     = Some (Conversation.mk (Conversation.id conversation)
               (Conversation.title conversation)
               (Conversation.userId conversation)
               (Conversation.provider conversation)
               (Conversation.model conversation)
               (Conversation.createdAt conversation) now4)
  /\ (forall k, k <> id -> getConversation k (fst after) = getConversation k s)
  /\ users (fst after) = users s
  /\ apiKeys (fst after) = apiKeys s.
Proof.
  intros Hown Hbody Hkey Hne userMessage chatHistory Hrun assistantMessage after.
  destruct (post_messages_run up uuid1 uuid2 now1 now2 now3 now4 id req_body s
              conversation messageData apiKey Hown Hbody Hkey) as [_ Hafter].
  cbv zeta in Hafter. fold after in Hafter.
  change (createMessage uuid1 now1 _ s)
    with (set_messages (map_set uuid1 userMessage (messages s)) s, userMessage)
    in Hafter.
  cbn [fst snd] in Hafter. fold chatHistory in Hafter. rewrite Hrun in Hafter.
  change (createMessage uuid2 now2 _ _)
    with (set_messages
            (map_set uuid2 assistantMessage
               (map_set uuid1 userMessage (messages s)))
            (set_messages (map_set uuid1 userMessage (messages s)) s),
          assistantMessage) in Hafter.
  cbn [fst snd] in Hafter.
  apply owned_Some in Hown as [Hconv _].
  unfold updateConversation in Hafter. cbn [conversations set_messages] in Hafter.
  unfold getConversation in Hconv. rewrite Hconv in Hafter.
  cbn [fst merge PartialConversation.id PartialConversation.title
         PartialConversation.userId PartialConversation.provider
         PartialConversation.model PartialConversation.createdAt] in Hafter.
  rewrite Hafter. cbn [fst snd]. unfold json.
  split; [reflexivity |]. split; [reflexivity |].
  split.
  { cbn [messages set_conversations set_messages].
    rewrite map_get_set_other by congruence. apply map_get_set_same. }
  split; [apply map_get_set_same |].
  split; [apply map_get_set_same |].
  split; [| split; reflexivity].
  intros k Hk. unfold getConversation. cbn [conversations set_conversations].
  now apply map_get_set_other.
Qed.

Lemma post_messages_success_witness :
  status (snd (run Sample.up_ok
                 (post_messages (lit "u1") (lit "u2") 1 2 3 4 (lit "c1")
                    Sample.hello Sample.store1))) = 200
  /\ option_map Conversation.updatedAt
       (getConversation (lit "c1")
          (fst (run Sample.up_ok
                  (post_messages (lit "u1") (lit "u2") 1 2 3 4 (lit "c1")
                     Sample.hello Sample.store1)))) = Some 4.
Proof.
  pose proof (post_messages_success Sample.up_ok (lit "u1") (lit "u2")
                1 2 3 4 (lit "c1") Sample.hello Sample.store1 Sample.conv1
                (ChatMessage.mk (lit "Hello") None None) Sample.keyOld
                (AIResponse.mk (lit "Hi there") (lit "gpt-4o") (lit "openai")
                   (Some (mkUsage 3 2 5)))
                eq_refl eq_refl eq_refl ltac:(discriminate) eq_refl)
    as (H1 & _ & _ & _ & H5 & _).
  cbv zeta in H1, H5. split.
  - rewrite H1. reflexivity.
  - rewrite H5. reflexivity.
Defined.

(** X18. A conversation that is not stored, or whose [userId] is not the
    current user (an ownerless one included), is not found by any route
    that takes its id: reading its messages, sending to it, updating it and
    deleting it all answer 404, whatever the body, and leave the store as
    it is, without an outbound call. *)
Theorem not_owned_is_not_found (id : jsstring) (s : MemStorage) :
  (forall conversation,
      getConversation id s = Some conversation ->
      Conversation.userId conversation <> Some mockUserId) ->
  get_messages id s = (s, fail 404 "Conversation not found")
  /\ delete_conversation id s = (s, fail 404 "Conversation not found")
  /\ (forall uuid1 uuid2 now1 now2 now3 now4 req_body,
        post_messages uuid1 uuid2 now1 now2 now3 now4 id req_body s
        = Ret (s, fail 404 "Conversation not found"))
  /\ (forall now req_body,
        req_body <> JNull ->
        patch_conversation now id req_body s
        = Some (s, fail 404 "Conversation not found")).
Proof.
  intros H. apply owned_None in H.
  unfold get_messages, delete_conversation, post_messages, patch_conversation.
  rewrite H. repeat split.
  intros now req_body Hb. destruct req_body; congruence.
Qed.

Lemma not_owned_is_not_found_witness :
  delete_conversation (lit "c2") Sample.store1
  = (Sample.store1, fail 404 "Conversation not found").
Proof.
  apply (not_owned_is_not_found (lit "c2") Sample.store1).
  intros conversation H. discriminate H.
Defined.

(** X19. On the send route a body that fails validation is answered with
    status 500, not 400, and nothing is written or sent: so it is for an
    owned conversation whenever [content] is missing or not a string, or
    [images] is [null] or anything but an array of strings. *)
Theorem post_messages_invalid_body (uuid1 uuid2 : jsstring)
    (now1 now2 now3 now4 : Z) (id : jsstring) (req_body : JSON)
    (s : MemStorage) (conversation : Conversation.t) :
  owned (getConversation id s) = Some conversation ->
  (forall text, body_get req_body "content" <> Some (JStr text))
  \/ (exists v, body_get req_body "images" = Some v
                /\ z_array z_string (Some v) = None) ->
  post_messages uuid1 uuid2 now1 now2 now3 now4 id req_body s
  = Ret (s, fail 500 "Failed to send message").
Proof.
  intros Hown Hbad. unfold post_messages. rewrite Hown.
  assert (Hparse : ChatMessageSchema_parse req_body = None).
  { unfold ChatMessageSchema_parse, body_get in *.
    destruct req_body as [| | | | | fields]; try reflexivity.
    destruct Hbad as [Hc | (v & Hv & Harr)].
    - destruct (fields_get (lit "content") fields) as [[| | | text | |] |];
        try reflexivity.
      exfalso. now apply (Hc text).
    - rewrite Hv. unfold z_optional. rewrite Harr. simpl.
      now destruct (z_string (fields_get (lit "content") fields)). }
  now rewrite Hparse.
Qed.

Lemma post_messages_invalid_body_witness :
  post_messages (lit "u1") (lit "u2") 1 2 3 4 (lit "c1")
    (JObj [(lit "content", JStr (lit "Hello")); (lit "images", JNull)])
    Sample.store1
  = Ret (Sample.store1, fail 500 "Failed to send message").
Proof.
  apply (post_messages_invalid_body (lit "u1") (lit "u2") 1 2 3 4 (lit "c1")
           _ Sample.store1 Sample.conv1 eq_refl).
  right. exists JNull. split; reflexivity.
Defined.

Lemma fields_get_snoc (k k' : jsstring) (v : JSON)
    (fields : list (jsstring * JSON)) :
  fields_get k (fields ++ [(k', v)])
  = if streq k k' then Some v else fields_get k fields.
Proof.
  induction fields as [| [a b] rest IH]; simpl.
  - reflexivity.
  - rewrite IH. now destruct (streq k k').
Qed.

(** What a schema reads at [k] in [{ ...req.body, userId: mockUserId }]. *)
Lemma spread_userId_get (req_body : JSON) (k : string) :
  streq (lit k) (lit "userId") = false ->
  fields_get (lit k) (spread_with req_body (lit "userId") (JStr mockUserId))
  = body_get req_body k.
Proof.
  intros Hk. unfold spread_with, body_get.
  destruct req_body; simpl; rewrite ?fields_get_snoc, Hk; reflexivity.
Qed.

Lemma spread_userId_owner (req_body : JSON) :
  fields_get (lit "userId")
    (spread_with req_body (lit "userId") (JStr mockUserId))
  = Some (JStr mockUserId).
Proof.
  unfold spread_with.
  destruct req_body; simpl; rewrite ?fields_get_snoc; reflexivity.
Qed.

(** X20. [POST /api/conversations] creates a conversation exactly when
    [title], [provider] and [model] of the body are strings. It then
    answers 200 with a conversation that has the generated id, those three
    values as they are (any provider, any model, an empty title too), the
    clock reading as [createdAt] and [updatedAt], and the current user as
    owner: a [userId], [id] or date in the body has no effect. Otherwise it
    answers 400 and the store is unchanged. *)
Theorem post_conversations_characterised (uuid : jsstring) (now : Z)
    (req_body : JSON) (s : MemStorage) :
  (forall title provider model,
      body_get req_body "title" = Some (JStr title) ->
      body_get req_body "provider" = Some (JStr provider) ->
      body_get req_body "model" = Some (JStr model) ->
      let created :=
        Conversation.mk uuid title (Some mockUserId) provider model now now in
      post_conversations uuid now req_body s
      = (set_conversations (map_set uuid created (conversations s)) s,
         mkResponse 200 (conversation_body created)))
  /\ ((forall title, body_get req_body "title" <> Some (JStr title))
      \/ (forall provider, body_get req_body "provider" <> Some (JStr provider))
      \/ (forall model, body_get req_body "model" <> Some (JStr model)) ->
      post_conversations uuid now req_body s
      = (s, fail 400 "Invalid conversation data")).
Proof.
  unfold post_conversations, insertConversationSchema_parse.
  rewrite (spread_userId_get req_body "title") by reflexivity.
  rewrite (spread_userId_get req_body "provider") by reflexivity.
  rewrite (spread_userId_get req_body "model") by reflexivity.
  rewrite spread_userId_owner.
  split.
  - intros title provider model -> -> ->. reflexivity.
  - intros H.
    destruct (body_get req_body "title") as [[| | | t | |] |];
      destruct (body_get req_body "provider") as [[| | | p | |] |];
      destruct (body_get req_body "model") as [[| | | m | |] |];
      try reflexivity.
    exfalso. destruct H as [H | [H | H]]; [apply (H t) | apply (H p) | apply (H m)];
      reflexivity.
Qed.

Lemma post_conversations_characterised_witness :
  post_conversations (lit "c9") 7
    (JObj [(lit "title", JStr (lit "T")); (lit "provider", JStr (lit "openai"));
           (lit "model", JStr (lit "gpt-4o"));
           (lit "userId", JStr (lit "someone-else"))])
    empty_storage
  = (set_conversations
       [(lit "c9",
         Conversation.mk (lit "c9") (lit "T") (Some mockUserId) (lit "openai")
           (lit "gpt-4o") 7 7)] empty_storage,
     mkResponse 200
       (conversation_body
          (Conversation.mk (lit "c9") (lit "T") (Some mockUserId) (lit "openai")
             (lit "gpt-4o") 7 7))).
Proof.
  apply (post_conversations_characterised (lit "c9") 7 _ empty_storage);
    reflexivity.
Defined.

(** X21. [POST /api/api-keys] stores a key exactly when [provider] and
    [keyValue] of the body are strings and [isActive] is absent, [null] or
    a boolean. The key it stores has the generated id, the current user as
    [userId] and [isActive] true, whatever [userId] and [isActive] the body
    carries, and the secret as given; the response shows it masked.
    Otherwise the route answers 400 and the store is unchanged. *)
Theorem post_api_keys_characterised (uuid : jsstring) (now : Z)
    (req_body : JSON) (s : MemStorage) :
  (forall provider keyValue,
      body_get req_body "provider" = Some (JStr provider) ->
      body_get req_body "keyValue" = Some (JStr keyValue) ->
      body_get req_body "isActive" = None
      \/ body_get req_body "isActive" = Some JNull
      \/ (exists b, body_get req_body "isActive" = Some (JBool b)) ->
      let stored := ApiKey.mk uuid mockUserId provider keyValue true now in
      let after := fst (post_api_keys uuid now req_body s) in
      snd (post_api_keys uuid now req_body s)
      = mkResponse 200
          (api_key_body
             (ApiKey.mk uuid mockUserId provider
                (firstn 8 keyValue ++ repeat 8226%N 40) true now))
      /\ map_get uuid (apiKeys after) = Some stored
      /\ users after = users s
      /\ conversations after = conversations s
      /\ messages after = messages s)
  /\ ((forall provider, body_get req_body "provider" <> Some (JStr provider))
      \/ (forall keyValue, body_get req_body "keyValue" <> Some (JStr keyValue))
      \/ (exists v, body_get req_body "isActive" = Some v
                    /\ v <> JNull /\ forall b, v <> JBool b) ->
      post_api_keys uuid now req_body s = (s, fail 400 "Invalid API key data")).
Proof.
  unfold post_api_keys, insertApiKeySchema_parse.
  rewrite (spread_userId_get req_body "provider") by reflexivity.
  rewrite (spread_userId_get req_body "keyValue") by reflexivity.
  rewrite (spread_userId_get req_body "isActive") by reflexivity.
  rewrite spread_userId_owner.
  split.
  - intros provider keyValue -> -> Hact. cbv zeta.
    assert (Hia : exists ia,
               z_nullable_optional z_boolean (body_get req_body "isActive")
               = Some ia).
    { destruct Hact as [-> | [-> | [b ->]]]; eexists; reflexivity. }
    destruct Hia as [ia ->]. simpl.
    unfold sanitize, ApiKey.with_keyValue. simpl. rewrite substring_prefix.
    repeat split. apply map_get_set_same.
  - intros H. simpl.
    destruct (body_get req_body "provider") as [[| | | p | |] |];
      destruct (body_get req_body "keyValue") as [[| | | kv | |] |];
      try reflexivity.
    destruct H as [H | [H | (v & Hv & Hn & Hb)]];
      [exfalso; now apply (H p) | exfalso; now apply (H kv) |].
    rewrite Hv. destruct v; try reflexivity; [congruence |].
    exfalso. now apply (Hb b).
Qed.

Lemma post_api_keys_characterised_witness :
  option_map ApiKey.isActive
    (map_get (lit "k9")
       (apiKeys
          (fst (post_api_keys (lit "k9") 8
                  (JObj [(lit "provider", JStr (lit "openai"));
                         (lit "keyValue", JStr (lit "sk-new-secret"));
                         (lit "isActive", JBool false);
                         (lit "userId", JStr (lit "someone-else"))])
                  Sample.store1))))
  = Some true.
Proof.
  pose proof (post_api_keys_characterised (lit "k9") 8
                (JObj [(lit "provider", JStr (lit "openai"));
                       (lit "keyValue", JStr (lit "sk-new-secret"));
                       (lit "isActive", JBool false);
                       (lit "userId", JStr (lit "someone-else"))])
                Sample.store1) as [H _].
  destruct (H (lit "openai") (lit "sk-new-secret") eq_refl eq_refl
              (or_intror (or_intror (ex_intro _ false eq_refl))))
    as (_ & Hget & _).
  rewrite Hget. reflexivity.
Defined.

(** X22. [DELETE /api/api-keys/:provider] for a supported provider always
    answers 200 with [success: true], also when the user has no active key
    for it, in which case the store is unchanged; in a reachable store the
    user has no active key for the provider afterwards. For a name outside
    the enumeration it answers 400 and the store is unchanged. *)
Theorem delete_api_key_route (provider : jsstring) (s : MemStorage) :
  wf_storage s -> at_most_one_active s ->
  (forall p,
      provider = provider_name p ->
      let after := fst (delete_api_key provider s) in
      snd (delete_api_key provider s) = mkResponse 200 success_body
      /\ getApiKey mockUserId provider after = None
      /\ (getApiKey mockUserId provider s = None -> after = s)
      /\ users after = users s
      /\ conversations after = conversations s
      /\ messages after = messages s)
  /\ (AIProvider_parse provider = None ->
      delete_api_key provider s = (s, fail 400 "Invalid provider")).
Proof.
  intros Hwf Hone. split.
  - intros p ->. cbv zeta. unfold delete_api_key.
    rewrite AIProvider_parse_name.
    pose proof (deleteApiKey_clears mockUserId (provider_name p) s Hwf Hone)
      as Hclear.
    assert (Hnone : getApiKey mockUserId (provider_name p) s = None ->
                    deleteApiKey mockUserId (provider_name p) s = (s, false)).
    { intros H. unfold deleteApiKey. now rewrite H. }
    assert (Hframe :
              users (fst (deleteApiKey mockUserId (provider_name p) s)) = users s
              /\ conversations (fst (deleteApiKey mockUserId (provider_name p) s))
                 = conversations s
              /\ messages (fst (deleteApiKey mockUserId (provider_name p) s))
                 = messages s).
    { unfold deleteApiKey.
      destruct (getApiKey mockUserId (provider_name p) s); repeat split. }
    destruct (deleteApiKey mockUserId (provider_name p) s) as [s' b].
    cbn [fst snd] in *. split; [reflexivity |]. split; [exact Hclear |].
    split; [| exact Hframe].
    intros H. now injection (Hnone H).
  - intros H. unfold delete_api_key. now rewrite H.
Qed.

Lemma wf_store_no_key : wf_storage Sample.store_no_key.
Proof. wf_concrete. Defined.

Lemma delete_api_key_route_witness :
  delete_api_key (lit "openai") Sample.store_no_key
  = (Sample.store_no_key, mkResponse 200 success_body).
Proof.
  assert (Hone : at_most_one_active Sample.store_no_key)
    by (intros u p; simpl; lia).
  destruct (delete_api_key_route (lit "openai") Sample.store_no_key
              wf_store_no_key Hone) as [H _].
  destruct (H openai eq_refl) as (H1 & _ & H3 & _).
  rewrite (surjective_pairing (delete_api_key _ _)).
  now rewrite H1, (H3 eq_refl).
Defined.

(** X23. [DELETE /api/conversations/:id] on a conversation of the current
    user, in a store whose messages sit under their own ids, answers 200;
    afterwards the conversation and its messages are gone, so that reading
    its messages or deleting it again answers 404. *)
Theorem delete_conversation_route (id : jsstring) (s : MemStorage)
    (conversation : Conversation.t) :
  wf_storage s ->
  owned (getConversation id s) = Some conversation ->
  let after := fst (delete_conversation id s) in
  snd (delete_conversation id s) = mkResponse 200 success_body
  /\ getConversation id after = None
  /\ getMessagesByConversationId id after = []
  /\ get_messages id after = (after, fail 404 "Conversation not found")
  /\ delete_conversation id after = (after, fail 404 "Conversation not found")
  /\ users after = users s
  /\ apiKeys after = apiKeys s.
Proof.
  intros Hwf Hown after. pose proof Hwf as (_ & Hc & Hm & _).
  assert (Hafter :
            delete_conversation id s
            = (set_conversations (map_remove id (conversations s))
                 (set_messages
                    (filter (fun e => negb (streq (Message.conversationId
                                                     (snd e)) id))
                       (messages s)) s),
               mkResponse 200 success_body)).
  { unfold delete_conversation. rewrite Hown.
    rewrite <- (deleteMessages_spec id s Hm).
    change (deleteConversation id s)
      with (set_conversations (map_remove id (conversations s))
              (fst (deleteMessagesByConversationId id s)),
            map_has id (conversations s)).
    reflexivity. }
  unfold after. rewrite Hafter. cbn [fst snd].
  assert (Hgone : getConversation id
                    (set_conversations (map_remove id (conversations s))
                       (set_messages
                          (filter (fun e => negb (streq (Message.conversationId
                                                           (snd e)) id))
                             (messages s)) s)) = None)
    by (unfold getConversation; simpl; now apply map_get_remove_same).
  split; [reflexivity |]. split; [exact Hgone |].
  split.
  { unfold getMessagesByConversationId. simpl.
    rewrite filter_none; [reflexivity |].
    intros msg Hin. unfold map_values in Hin.
    apply in_map_iff in Hin as [e [<- Hin]]. apply filter_In in Hin as [_ Hne].
    now apply negb_true_iff in Hne. }
  unfold get_messages, delete_conversation. rewrite Hgone.
  repeat split.
Qed.

Lemma delete_conversation_route_witness :
  get_messages (lit "c1") (fst (delete_conversation (lit "c1") Sample.store1))
  = (fst (delete_conversation (lit "c1") Sample.store1),
     fail 404 "Conversation not found").
Proof.
  apply (delete_conversation_route (lit "c1") Sample.store1 Sample.conv1
           wf_store1 eq_refl).
Defined.



(* ================================================================= *)
(** * Further properties of the schemas and of the client's requests *)

(** X25. [AIProvider] is an enumeration of twelve distinct names: parsing
    the name of a provider gives that provider, whatever parses is the name
    of the provider it gives, two providers never share a name, and the
    empty string is not a name. *)
Theorem AIProvider_enum :
  (forall p, AIProvider_parse (provider_name p) = Some p)
  /\ (forall name p, AIProvider_parse name = Some p -> name = provider_name p)
  /\ (forall p q, provider_name p = provider_name q -> p = q)
  /\ NoDup (map provider_name AIProvider_options)
  /\ List.length AIProvider_options = 12%nat
  /\ (forall p, In p AIProvider_options)
  /\ AIProvider_parse [] = None.
Proof.
  assert (Hparse : forall p, AIProvider_parse (provider_name p) = Some p)
    by (intros p; destruct p; reflexivity).
  split; [exact Hparse |]. split.
  { intros name p H. unfold AIProvider_parse in H.
    apply find_some in H as [_ H]. now apply streq_true in H. }
  split.
  { intros p q H. pose proof (Hparse p) as Hp. rewrite H, Hparse in Hp.
    now injection Hp. }
  split.
  { simpl. repeat (constructor; [simpl; intuition discriminate |]).
    constructor. }
  split; [reflexivity |]. split; [| reflexivity].
  intros p. destruct p; simpl; tauto.
Qed.

Lemma all_some_strings (l : list jsstring) :
  all_some (map (fun i => z_string (Some i)) (map JStr l)) = Some l.
Proof.
  induction l as [| a l IH]; [reflexivity |].
  change (option_map (cons a)
            (all_some (map (fun i => z_string (Some i)) (map JStr l)))
          = Some (a :: l)).
  now rewrite IH.
Qed.

Lemma chat_request_body_parse (content : jsstring)
    (images : option (list jsstring)) :
  ChatMessageSchema_parse (chat_request_body content images)
  = Some (ChatMessage.mk content images None).
Proof.
  destruct images as [l |].
  - unfold chat_request_body, ChatMessageSchema_parse.
    change (fields_get (lit "content")
              [(lit "content", JStr content); (lit "images", JArr (map JStr l))])
      with (Some (JStr content)).
    change (fields_get (lit "images")
              [(lit "content", JStr content); (lit "images", JArr (map JStr l))])
      with (Some (JArr (map JStr l))).
    change (fields_get (lit "attachments")
              [(lit "content", JStr content); (lit "images", JArr (map JStr l))])
      with (@None JSON).
    cbn [z_string z_optional z_array]. rewrite all_some_strings. reflexivity.
  - reflexivity.
Qed.

(** X26. The body the client builds for a message always passes the
    server's schema and comes back as it was: for every content (the empty
    one included) and every list of images, or none, [ChatMessageSchema]
    accepts [{ content, images }] and yields that content and those images,
    with no attachments; sent to a conversation of the user that has an
    active key, it is stored as a user message with that content and with
    the images as metadata. *)
Theorem chat_request_body_accepted (content : jsstring)
    (images : option (list jsstring)) :
  ChatMessageSchema_parse (chat_request_body content images)
  = Some (ChatMessage.mk content images None)
  /\ (forall up uuid1 uuid2 now1 now2 now3 now4 id s conversation apiKey,
        owned (getConversation id s) = Some conversation ->
        getApiKey mockUserId (Conversation.provider conversation) s
        = Some apiKey ->
        uuid1 <> uuid2 ->
        map_get uuid1
          (messages
             (fst (run up
                     (post_messages uuid1 uuid2 now1 now2 now3 now4 id
                        (chat_request_body content images) s))))
        = Some (Message.mk uuid1 id user content
                  (option_map MetaImages images) now1)).
Proof.
  split; [apply chat_request_body_parse |].
  intros up uuid1 uuid2 now1 now2 now3 now4 id s conversation apiKey
         Hown Hkey Hne.
  destruct (post_messages_run up uuid1 uuid2 now1 now2 now3 now4 id
              (chat_request_body content images) s conversation
              (ChatMessage.mk content images None) apiKey Hown
              (chat_request_body_parse content images) Hkey) as [_ Hrun].
  cbv zeta in Hrun. rewrite Hrun.
  destruct (run up (sendMessage _ _ _ _)) as [aiResponse | e].
  - unfold updateConversation. cbn [fst snd].
    replace (match ChatMessage.images (ChatMessage.mk content images None) with
             | Some images0 => Some (MetaImages images0)
             | None => None
             end) with (option_map MetaImages images)
      by (now destruct images).
    destruct (map_get id _); cbn [fst messages set_conversations createMessage
                                  set_messages];
      (rewrite map_get_set_other by congruence); apply map_get_set_same.
  - cbn [fst createMessage messages set_messages].
    replace (match ChatMessage.images (ChatMessage.mk content images None) with
             | Some images0 => Some (MetaImages images0)
             | None => None
             end) with (option_map MetaImages images)
      by (now destruct images).
    apply map_get_set_same.
Qed.

Lemma chat_request_body_accepted_witness :
  map_get (lit "u1")
    (messages
       (fst (run Sample.up_down
               (post_messages (lit "u1") (lit "u2") 1 2 3 4 (lit "c1")
                  (chat_request_body (lit "Look") (Some [lit "aGk="]))
                  Sample.store1))))
  = Some (Message.mk (lit "u1") (lit "c1") user (lit "Look")
            (Some (MetaImages [lit "aGk="])) 1).
Proof.
  apply (proj2 (chat_request_body_accepted (lit "Look") (Some [lit "aGk="]))
           Sample.up_down (lit "u1") (lit "u2") 1 2 3 4 (lit "c1")
           Sample.store1 Sample.conv1 Sample.keyOld eq_refl eq_refl).
  discriminate.
Defined.

Lemma trim_nonempty (message : jsstring) :
  truthy (trim message) = true -> exists a rest, message = a :: rest.
Proof.
  destruct message as [| a rest]; [discriminate |]. intros _. now exists a, rest.
Qed.

(** X27. The input box ([chat-input.tsx]). [handleSend] does nothing while
    the text is blank or a send is pending. With a text that is not blank
    and no conversation open it asks for a new conversation titled with the
    first fifty code units of the text (never ["New Chat"]), on provider
    [openai] with model [gpt-4o]; the server accepts that request. When the
    user has no active OpenAI key, the message that follows is refused with
    status 400, so the exchange leaves a new conversation without any
    message. *)
Theorem new_chat_without_key (message : jsstring)
    (attachedImages : list jsstring) (uuid : jsstring) (now : Z)
    (s : MemStorage) :
  (forall conversationId isPending,
      truthy (trim message) = false \/ isPending = true ->
      handleSend message attachedImages conversationId isPending = no_action)
  /\ (truthy (trim message) = true ->
      getApiKey mockUserId (lit "openai") s = None ->
      let created :=
        Conversation.mk uuid (firstn 50 message) (Some mockUserId)
          (lit "openai") (lit "gpt-4o") now now in
      let s1 := set_conversations (map_set uuid created (conversations s)) s in
      handleSend message attachedImages None false
      = create_conversation (new_conversation_body message)
      /\ post_conversations uuid now (new_conversation_body message) s
         = (s1, mkResponse 200 (conversation_body created))
      /\ (forall uuid1 uuid2 now1 now2 now3 now4,
            post_messages uuid1 uuid2 now1 now2 now3 now4 uuid
              (chat_request_body message (attached attachedImages)) s1
            = Ret (s1, mkResponse 400
                         (error_body
                            (lit "API key not configured for openai"))))
      /\ messages s1 = messages s).
Proof.
  split.
  - intros conversationId isPending [H | H]; unfold handleSend; rewrite H.
    + reflexivity.
    + now rewrite orb_true_r.
  - intros Htext Hkey. cbv zeta.
    destruct (trim_nonempty message Htext) as (a & rest & Hm).
    split; [unfold handleSend; now rewrite Htext |].
    split; [subst message; reflexivity |].
    split; [| reflexivity].
    intros uuid1 uuid2 now1 now2 now3 now4. unfold post_messages.
    assert (Hown : owned (getConversation uuid
                            (set_conversations
                               (map_set uuid
                                  (Conversation.mk uuid (firstn 50 message)
                                     (Some mockUserId) (lit "openai")
                                     (lit "gpt-4o") now now)
                                  (conversations s)) s))
                   = Some (Conversation.mk uuid (firstn 50 message)
                             (Some mockUserId) (lit "openai") (lit "gpt-4o")
                             now now)).
    { unfold getConversation. cbn [conversations set_conversations].
      rewrite map_get_set_same. reflexivity. }
    rewrite Hown, chat_request_body_parse.
    cbn [Conversation.provider].
    change (getApiKey mockUserId (lit "openai")
              (set_conversations
                 (map_set uuid
                    (Conversation.mk uuid (firstn 50 message) (Some mockUserId)
                       (lit "openai") (lit "gpt-4o") now now)
                    (conversations s)) s))
      with (getApiKey mockUserId (lit "openai") s).
    rewrite Hkey. reflexivity.
Qed.

Lemma new_chat_without_key_witness :
  post_conversations (lit "c9") 7 (new_conversation_body (lit "Hello"))
    Sample.store_no_key
  = (set_conversations
       (map_set (lit "c9")
          (Conversation.mk (lit "c9") (lit "Hello") (Some mockUserId)
             (lit "openai") (lit "gpt-4o") 7 7)
          (conversations Sample.store_no_key)) Sample.store_no_key,
     mkResponse 200
       (conversation_body
          (Conversation.mk (lit "c9") (lit "Hello") (Some mockUserId)
             (lit "openai") (lit "gpt-4o") 7 7))).
Proof.
  destruct (new_chat_without_key (lit "Hello") [] (lit "c9") 7
              Sample.store_no_key) as [_ H].
  destruct (H eq_refl eq_refl) as (_ & H2 & _).
  exact H2.
Defined.

(** X28. A new key takes effect at once. In a store whose keys sit under
    their own ids, after [POST /api/api-keys] with [{ provider, keyValue }]
    under a fresh identifier, [getApiKey] returns the new key with the
    secret as given, and every outbound call of a message sent to a
    conversation of that provider carries the new secret. *)
Theorem new_key_is_used (uuid : jsstring) (now : Z)
    (provider keyValue : jsstring) (s : MemStorage) :
  wf_storage s ->
  map_get uuid (apiKeys s) = None ->
  let s1 :=
    fst (post_api_keys uuid now
           (JObj [(lit "provider", JStr provider);
                  (lit "keyValue", JStr keyValue)]) s) in
  getApiKey mockUserId provider s1
  = Some (ApiKey.mk uuid mockUserId provider keyValue true now)
  /\ (forall up uuid1 uuid2 now1 now2 now3 now4 id req_body conversation
             messageData c,
        owned (getConversation id s1) = Some conversation ->
        Conversation.provider conversation = provider ->
        ChatMessageSchema_parse req_body = Some messageData ->
        In c (calls up
                (post_messages uuid1 uuid2 now1 now2 now3 now4 id req_body s1)) ->
        credential_of c = keyValue).
Proof.
  intros Hwf Hfresh s1.
  assert (Hs1 : s1 = fst (setApiKey uuid now
                            (InsertApiKey.mk mockUserId provider keyValue None)
                            s)) by reflexivity.
  assert (Hget : getApiKey mockUserId provider s1
                 = Some (ApiKey.mk uuid mockUserId provider keyValue true now)).
  { rewrite Hs1. unfold getApiKey, js_find. rewrite find_filter.
    change (hd_error
              (active_keys mockUserId provider
                 (fst (setApiKey uuid now
                         (InsertApiKey.mk mockUserId provider keyValue None) s)))
            = Some (ApiKey.mk uuid mockUserId provider keyValue true now)).
    rewrite setApiKey_active by assumption.
    simpl. unfold same_pair. simpl. now rewrite !streq_refl. }
  split; [exact Hget |].
  intros up uuid1 uuid2 now1 now2 now3 now4 id req_body conversation
         messageData c Hown Hprov Hbody Hin.
  rewrite <- Hprov in Hget.
  destruct (post_messages_run up uuid1 uuid2 now1 now2 now3 now4 id req_body s1
              conversation messageData _ Hown Hbody Hget) as [Hcalls _].
  cbv zeta in Hcalls. rewrite Hcalls in Hin.
  match type of Hin with
  | In c (calls up (sendMessage ?p ?k ?h ?m)) =>
      destruct (sendMessage_calls_spec up p k h m) as [_ Hall]
  end.
  exact (proj1 (Hall c Hin)).
Qed.

Lemma new_key_is_used_witness :
  getApiKey mockUserId (lit "openai")
    (fst (post_api_keys (lit "k3") 9
            (JObj [(lit "provider", JStr (lit "openai"));
                   (lit "keyValue", JStr (lit "sk-rotated"))])
            Sample.store1))
  = Some (ApiKey.mk (lit "k3") mockUserId (lit "openai") (lit "sk-rotated")
            true 9).
Proof.
  apply (new_key_is_used (lit "k3") 9 (lit "openai") (lit "sk-rotated")
           Sample.store1 wf_store1 eq_refl).
Defined.

